(** * koa2-weixin-oauth: the OAuth session of [index.js]

    A shallow embedding of [AccessToken] and [Auth] (index.js) and the
    properties of the token cache, the lazy refresh and the authorize URL.

    Conventions of the embedding.
    - A JavaScript string is a sequence of 16-bit code units; it is written
      here as the bytes of its generalised UTF-8 form, in which a code unit
      that is an unpaired surrogate takes three bytes like any other code
      unit of its size.  Well-formed text is then plain UTF-8, which is also
      what goes on the wire.
    - A JavaScript number is a double: NaN, an infinity, or [m * 2^e].  The
      two zeros are not told apart (nothing in index.js divides by one).
    - An object that comes out of [JSON.parse] is the list of its own
      properties in insertion order; its prototype is the one of the
      language.  The library never mutates such an object after
      [processToken] has stamped it, so it is held by value.
    - The cache [this.store] is an object used as a map: its own properties
      and its prototype are both modelled, since reads inherit and an
      assignment to [__proto__] replaces the prototype.
    - The conversions between numbers and strings, which index.js reaches
      only through its data, belong to the language and are taken as given
      ([Host]). *)

From Stdlib Require Import ZArith String Ascii List Bool Lia.
From stdpp Require Import base strings gmap list pretty.

Local Open Scope string_scope.
Local Open Scope Z_scope.
Local Set Warnings "-register-all".

(** ** Numbers *)

(** [Fin m e] is [m * 2^e]; it is kept with [e <= 0], and with [m] odd
    unless [e = 0], so that an integer [z] is [Fin z 0]. *)
Inductive number : Type :=
| NaN
| Inf (negative : bool)
| Fin (m e : Z).

(** The number of binary digits of [m]. *)
Definition bits (m : Z) : Z :=
  if m =? 0 then 0 else Z.log2 (Z.abs m) + 1.

Fixpoint trailing_zeros (p : positive) : Z :=
  match p with
  | xO p' => 1 + trailing_zeros p'
  | _ => 0
  end.

(** [m * 2^e] in the form kept. *)
Definition canonical (m e : Z) : number :=
  if 0 <=? e then Fin (m * 2 ^ e) 0
  else
    match m with
    | Z0 => Fin 0 0
    | Zpos p | Zneg p =>
        let k := Z.min (trailing_zeros p) (- e) in
        Fin (m / 2 ^ k) (e + k)
    end.

(** [m / 2^k] rounded to the nearest integer, a tie going to the even one. *)
Definition nearest_even (m k : Z) : Z :=
  let q := m / 2 ^ k in
  let r := m mod 2 ^ k in
  let half := 2 ^ (k - 1) in
  if r <? half then q
  else if half <? r then q + 1
  else if Z.even q then q else q + 1.

(** The double nearest to [m * 2^e]: 53 binary digits, no exponent under
    -1074, an infinity from 2^1024 on. *)
Definition round (m e : Z) : number :=
  let shift := Z.max (bits m - 53) (- 1074 - e) in
  let m' := if 0 <? shift then nearest_even m shift else m in
  let e' := if 0 <? shift then e + shift else e in
  if 1024 <? bits m' + e' then Inf (m' <? 0) else canonical m' e'.

Definition number_mul (x y : number) : number :=
  match x, y with
  | NaN, _ | _, NaN => NaN
  | Inf a, Inf b => Inf (xorb a b)
  | Inf a, Fin m _ | Fin m _, Inf a =>
      if m =? 0 then NaN else Inf (xorb a (m <? 0))
  | Fin a ea, Fin b eb => round (a * b) (ea + eb)
  end.

Definition number_add (x y : number) : number :=
  match x, y with
  | NaN, _ | _, NaN => NaN
  | Inf a, Inf b => if Bool.eqb a b then Inf a else NaN
  | Inf a, Fin _ _ | Fin _ _, Inf a => Inf a
  | Fin a ea, Fin b eb =>
      let e := Z.min ea eb in
      round (a * 2 ^ (ea - e) + b * 2 ^ (eb - e)) e
  end.

(** [x < y]; false as soon as one side is NaN. *)
Definition number_lt (x y : number) : bool :=
  match x, y with
  | NaN, _ | _, NaN => false
  | Inf a, Inf b => a && negb b
  | Inf a, Fin _ _ => a
  | Fin _ _, Inf b => negb b
  | Fin a ea, Fin b eb =>
      let e := Z.min ea eb in
      a * 2 ^ (ea - e) <? b * 2 ^ (eb - e)
  end.

Definition is_zero (x : number) : bool :=
  match x with
  | Fin m _ => m =? 0
  | _ => false
  end.

(** ** Values *)

(** Data: what [JSON.parse] returns, and [undefined]. *)
Inductive value : Type :=
| VUndefined
| VNull
| VBool (b : bool)
| VNum (x : number)
| VStr (s : string)
| VObj (props : list (string * value))
| VArr (items : list value) (props : list (string * value)).

(** The number whose value is the integer [z]. *)
Definition num (z : Z) : value := VNum (Fin z 0).

(** A value as a read of the cache can yield it: data, or one of the
    objects of the language that every object inherits from. *)
Inductive jsval : Type :=
| Data (v : value)
| Native (name : string).

Inductive Error : Type :=
| TransportError (cause : string)   (* the [err] the HTTP transport reports *)
| SyntaxError (text : string)       (* JSON.parse on a text that is not JSON *)
| TypeError (prop : string)         (* the property whose access or call failed *)
| ReferenceError (ident : string)   (* [ident] is not defined *)
| URIError                          (* querystring.escape on a cut surrogate pair *)
| NamedError (name message : string). (* [new Error(message)] with [name] set *)

Inductive Completion (A : Type) : Type :=
| Normal (a : A)
| Throw (e : Error).
Arguments Normal {A} a.
Arguments Throw {A} e.

Definition and_then {A B} (c : Completion A) (k : A -> Completion B)
  : Completion B :=
  match c with
  | Normal a => k a
  | Throw e => Throw e
  end.

(** ToBoolean *)
Definition truthy (v : value) : bool :=
  match v with
  | VUndefined | VNull => false
  | VBool b => b
  | VNum NaN => false
  | VNum x => negb (is_zero x)
  | VStr s => negb (String.eqb s "")
  | VObj _ | VArr _ _ => true
  end.

Definition truthy_js (v : jsval) : bool :=
  match v with
  | Data d => truthy d
  | Native _ => true
  end.

Fixpoint assoc (k : string) (ps : list (string * value)) : option value :=
  match ps with
  | [] => None
  | (k', v) :: r => if String.eqb k k' then Some v else assoc k r
  end.

Fixpoint assoc_set (k : string) (x : value) (ps : list (string * value))
  : list (string * value) :=
  match ps with
  | [] => [(k, x)]
  | (k', v) :: r =>
      if String.eqb k k' then (k, x) :: r else (k', v) :: assoc_set k x r
  end.

(** [v.k], for the property names this program reads ([access_token],
    [refresh_token], [expires_in], [create_at], [openid]): none of them is an
    array index, [length], or a name defined on a built-in prototype, so a
    primitive and an array without such a property answer [undefined]. *)
Definition get (v : value) (k : string) : Completion value :=
  match v with
  | VUndefined | VNull => Throw (TypeError k)
  | VObj ps | VArr _ ps => Normal (default VUndefined (assoc k ps))
  | VBool _ | VNum _ | VStr _ => Normal VUndefined
  end.

(** The same read on what the cache yielded; the objects of the language
    have none of these five properties. *)
Definition get_js (v : jsval) (k : string) : Completion value :=
  match v with
  | Data d => get d k
  | Native _ => Normal VUndefined
  end.

(** [v.k = x] in sloppy mode (index.js has no strict directive): the
    assignment to a property of a primitive is dropped silently.  The result
    is the object after the assignment. *)
Definition put (v : value) (k : string) (x : value) : Completion value :=
  match v with
  | VUndefined | VNull => Throw (TypeError k)
  | VObj ps => Normal (VObj (assoc_set k x ps))
  | VArr items ps => Normal (VArr items (assoc_set k x ps))
  | VBool _ | VNum _ | VStr _ => Normal v
  end.

Definition is_object (v : value) : bool :=
  match v with
  | VObj _ | VArr _ _ => true
  | _ => false
  end.

(** ** Conversions *)

(** What the language provides and index.js reaches only through the data
    it is given: the string of a number, the number a string denotes, and
    the names [Array.prototype] defines. *)
Class Host : Type := {
  NumberToString : number -> string;
  StringToNumber : string -> number;
  Array_prototype_has : string -> bool
}.

Section Conversions.

Context `{Host}.

(** ToString.  An object converts through its [toString]: the inherited
    one, unless an own property of that name, which in parsed data is never
    a function, hides it; then the conversion throws.  An array joins the
    strings of its elements, [null] and [undefined] giving the empty
    string; an own [join] hides the inherited one and leaves
    [Object.prototype.toString]. *)
Fixpoint ToString (v : value) : Completion string :=
  match v with
  | VUndefined => Normal "undefined"
  | VNull => Normal "null"
  | VBool true => Normal "true"
  | VBool false => Normal "false"
  | VNum x => Normal (NumberToString x)
  | VStr s => Normal s
  | VObj props =>
      match assoc "toString" props with
      | Some _ => Throw (TypeError "toString")
      | None => Normal "[object Object]"
      end
  | VArr items props =>
      match assoc "toString" props, assoc "join" props with
      | Some _, _ => Throw (TypeError "toString")
      | None, Some _ => Normal "[object Array]"
      | None, None =>
          let element (x : value) : Completion string :=
            match x with
            | VUndefined | VNull => Normal ""
            | _ => ToString x
            end in
          (fix join (l : list value) : Completion string :=
             match l with
             | [] => Normal ""
             | [x] => element x
             | x :: r =>
                 and_then (element x) (fun s =>
                 and_then (join r) (fun t => Normal (s +:+ "," +:+ t)))
             end) items
      end
  end.

(** A property key is the string of the value used as key. *)
Definition ToPropertyKey (v : value) : Completion string := ToString v.

(** ToPrimitive: an object becomes its string (its inherited [valueOf]
    returns the object itself and is passed over). *)
Definition ToPrimitive (v : value) : Completion value :=
  match v with
  | VObj _ | VArr _ _ => and_then (ToString v) (fun s => Normal (VStr s))
  | _ => Normal v
  end.

Definition ToNumber (v : value) : Completion number :=
  and_then (ToPrimitive v) (fun p =>
    Normal match p with
           | VUndefined => NaN
           | VNull => Fin 0 0
           | VBool b => Fin (if b then 1 else 0) 0
           | VNum x => x
           | VStr s => StringToNumber s
           | _ => NaN
           end).

(** [a * b] *)
Definition js_mul (a b : value) : Completion value :=
  and_then (ToNumber a) (fun x =>
  and_then (ToNumber b) (fun y => Normal (VNum (number_mul x y)))).

(** [a + b]: concatenation as soon as one operand is a string. *)
Definition js_add (a b : value) : Completion value :=
  and_then (ToPrimitive a) (fun pa =>
  and_then (ToPrimitive b) (fun pb =>
    match pa, pb with
    | VStr s, _ => and_then (ToString pb) (fun t => Normal (VStr (s +:+ t)))
    | _, VStr t => and_then (ToString pa) (fun s => Normal (VStr (s +:+ t)))
    | _, _ =>
        and_then (ToNumber pa) (fun x =>
        and_then (ToNumber pb) (fun y => Normal (VNum (number_add x y))))
    end)).

(** [t < b] where [t] is a Number: the comparison is numeric. *)
Definition js_lt_num (t : Z) (b : value) : Completion bool :=
  and_then (ToNumber b) (fun y => Normal (number_lt (Fin t 0) y)).

End Conversions.

(** ** The cache object *)

(** The prototype of the cache: [Object.prototype] as long as nothing has
    been assigned to [__proto__], then what was assigned. *)
Inductive Proto : Type :=
| ObjectPrototype
| NullPrototype
| Replaced (by_object : value).

Record Cache : Type := new_Cache {
  own : gmap string value;
  proto : Proto
}.

(** [{}] *)
Definition empty_object : Cache := {| own := ∅; proto := ObjectPrototype |}.

(** The names [Object.prototype] defines, [__proto__] apart. *)
Definition Object_prototype_has (k : string) : bool :=
  bool_decide (k ∈ ["constructor"; "__defineGetter__"; "__defineSetter__";
                    "hasOwnProperty"; "__lookupGetter__"; "__lookupSetter__";
                    "isPrototypeOf"; "propertyIsEnumerable"; "toString";
                    "valueOf"; "toLocaleString"]).

(** A read that reaches [Object.prototype]: the getter of [__proto__] gives
    the prototype of the object that was read, the other names are
    functions. *)
Definition from_Object_prototype (prototype : jsval) (k : string) : jsval :=
  if String.eqb k "__proto__" then prototype
  else if Object_prototype_has k then Native ("Object.prototype." +:+ k)
  else Data VUndefined.

(** The own property [k] of a data object; an array has its elements under
    their indices and its [length]. *)
Definition own_property (v : value) (k : string) : option value :=
  match v with
  | VObj props => assoc k props
  | VArr items props =>
      if String.eqb k "length" then Some (num (Z.of_nat (length items)))
      else
        match list_find (fun i => bool_decide (pretty i = k))
                (seq 0 (length items)) with
        | Some (i, _) => items !! i
        | None => assoc k props
        end
  | _ => None
  end.

Section CacheReads.

Context `{Host}.

(** [store[k]] *)
Definition lookup_cache (c : Cache) (k : string) : jsval :=
  match own c !! k with
  | Some v => Data v
  | None =>
      match proto c with
      | ObjectPrototype =>
          from_Object_prototype (Native "Object.prototype") k
      | NullPrototype => Data VUndefined
      | Replaced p =>
          match own_property p k with
          | Some x => Data x
          | None =>
              match p with
              | VArr _ _ =>
                  if Array_prototype_has k then Native ("Array.prototype." +:+ k)
                  else from_Object_prototype (Data p) k
              | _ => from_Object_prototype (Data p) k
              end
          end
      end
  end.

End CacheReads.

(** Whether [store.__proto__ = ...] reaches the setter of
    [Object.prototype]: not when the cache has no prototype, nor when a data
    property of that name comes first. *)
Definition reaches_proto_setter (c : Cache) : bool :=
  match own c !! "__proto__", proto c with
  | Some _, _ => false
  | None, ObjectPrototype => true
  | None, NullPrototype => false
  | None, Replaced p =>
      match own_property p "__proto__" with
      | Some _ => false
      | None => true
      end
  end.

(** [store[k] = v].  Every inherited property is writable data, so the
    assignment makes or updates an own property, except for [__proto__]:
    its setter replaces the prototype when [v] is an object or [null] and
    does nothing otherwise. *)
Definition assign_cache (c : Cache) (k : string) (v : value) : Cache :=
  if String.eqb k "__proto__" && reaches_proto_setter c then
    match v with
    | VObj _ | VArr _ _ => {| own := own c; proto := Replaced v |}
    | VNull => {| own := own c; proto := NullPrototype |}
    | _ => c
    end
  else {| own := <[k := v]> (own c); proto := proto c |}.

(** ** The session, the outside world and the two kinds of computation *)

Record AccessToken : Type := new_AccessToken { data : jsval }.

(** [this] of the [Auth] methods. *)
Record Auth : Type := new_Auth_object {
  appid : string;
  appsecret : string;
  store : Cache
}.

(** [request.post(url, {form: form}, callback)] *)
Record Request : Type := new_Request {
  url : string;
  form : list (string * value)
}.

(** A response body, given by what [JSON.parse] makes of it. *)
Inductive Body : Type :=
| Malformed (text : string)
| WellFormed (json : value).

(** What the transport hands to the callback. *)
Inductive Reply : Type :=
| NetFailure (cause : string)
| NetResponse (body : Body).

Record World : Type := new_World {
  this : Auth;
  clock : Z;                 (* what [new Date().getTime()] returns now *)
  sent : list Request;       (* the requests posted so far, oldest first *)
  console : list jsval       (* the values printed by [console.log] *)
}.

(** Synchronous code: it completes normally or throws. *)
Definition Sync (A : Type) : Type := World -> Completion A * World.

(** A promise, by the way it ends.  [Uncaught e]: the exception [e] was
    thrown inside the callback of the transport, where no promise catches
    it; the promise is never settled and [e] reaches the event loop as an
    uncaught exception. *)
Inductive Settled (A : Type) : Type :=
| Resolved (a : A)
| Rejected (e : Error)
| Uncaught (e : Error).
Arguments Resolved {A} a.
Arguments Rejected {A} e.
Arguments Uncaught {A} e.

Definition Async (A : Type) : Type := World -> Settled A * World.

Definition sync_ret {A} (a : A) : Sync A := fun w => (Normal a, w).

Definition sync_bind {A B} (m : Sync A) (k : A -> Sync B) : Sync B :=
  fun w =>
    match m w with
    | (Normal a, w1) => k a w1
    | (Throw e, w1) => (Throw e, w1)
    end.

Definition throw {A} (e : Error) : Sync A := fun w => (Throw e, w).

(** A pure step that may throw. *)
Definition eval {A} (c : Completion A) : Sync A := fun w => (c, w).

(** [return a] of an async function. *)
Definition async_ret {A} (a : A) : Async A := fun w => (Resolved a, w).

(** [await m] followed by the rest of an async function: a rejection is
    rethrown and rejects the function's own promise; a promise that is never
    settled leaves the function suspended for ever.  The same sequencing
    joins a block of an async function to what follows the block. *)
Definition await {A B} (m : Async A) (k : A -> Async B) : Async B :=
  fun w =>
    match m w with
    | (Resolved a, w1) => k a w1
    | (Rejected e, w1) => (Rejected e, w1)
    | (Uncaught e, w1) => (Uncaught e, w1)
    end.

(** Synchronous code in the body of an async function: what it throws
    rejects the function's promise. *)
Definition run {A B} (m : Sync A) (k : A -> Async B) : Async B :=
  fun w =>
    match m w with
    | (Normal a, w1) => k a w1
    | (Throw e, w1) => (Rejected e, w1)
    end.

Declare Scope sync_scope.
Delimit Scope sync_scope with sync.
Notation "x <- m ;; k" := (sync_bind m (fun x => k))
  (at level 20, m at level 99, k at level 200) : sync_scope.

Declare Scope async_scope.
Delimit Scope async_scope with async.
Notation "x <- 'await' m ;; k" := (await m (fun x => k))
  (at level 20, m at level 99, k at level 200) : async_scope.
Notation "x <- m ;; k" := (run m (fun x => k))
  (at level 20, m at level 99, k at level 200) : async_scope.

(** ** [querystring] *)

Definition in_range (lo hi : N) (c : ascii) : bool :=
  let n := N_of_ascii c in ((lo <=? n) && (n <=? hi))%N.

Fixpoint has (c : ascii) (s : string) : bool :=
  match s with
  | "" => false
  | String c' r => Ascii.eqb c c' || has c r
  end.

(** The characters [querystring.escape] leaves as they are. *)
Definition unreserved (c : ascii) : bool :=
  in_range 48 57 c || in_range 65 90 c || in_range 97 122 c
  || has c "-_.!~*'()".

Definition byte (c : ascii) : Z := Z.of_N (N_of_ascii c).
Definition char (b : Z) : ascii := ascii_of_N (Z.to_N b).

Definition hex_digit (n : Z) : ascii :=
  default "0"%char (String.get (Z.to_nat n) "0123456789ABCDEF").

(** [hexTable[b]] *)
Definition hex (b : Z) : string :=
  String "%" (String (hex_digit (b / 16)) (String (hex_digit (b mod 16)) "")).

Definition continuation (b : Z) : bool := (128 <=? b) && (b <=? 191).

(** Three bytes that hold one code unit from 0x800 on, the surrogates
    included. *)
Definition three_bytes (b1 b2 b3 : Z) : bool :=
  (224 <=? b1) && (b1 <=? 239) && continuation b2 && continuation b3
  && implb (b1 =? 224) (160 <=? b2).

(** Four bytes that hold one code point from 0x10000 on. *)
Definition four_bytes (b1 b2 b3 b4 : Z) : bool :=
  (240 <=? b1) && (b1 <=? 244)
  && continuation b2 && continuation b3 && continuation b4
  && implb (b1 =? 240) (144 <=? b2) && implb (b1 =? 244) (b2 <=? 143).

(** The code units of a string.  Bytes that are not of the form the
    conventions describe stand for no string; they are read one by one. *)
Fixpoint units (s : string) : list Z :=
  match s with
  | "" => []
  | String c1 r1 =>
      let b1 := byte c1 in
      let alone := b1 :: units r1 in
      if b1 <? 128 then alone
      else
        match r1 with
        | String c2 r2 =>
            let b2 := byte c2 in
            if (194 <=? b1) && (b1 <=? 223) && continuation b2 then
              ((b1 - 192) * 64 + (b2 - 128)) :: units r2
            else
              match r2 with
              | String c3 r3 =>
                  let b3 := byte c3 in
                  if three_bytes b1 b2 b3 then
                    ((b1 - 224) * 4096 + (b2 - 128) * 64 + (b3 - 128))
                      :: units r3
                  else
                    match r3 with
                    | String c4 r4 =>
                        let b4 := byte c4 in
                        if four_bytes b1 b2 b3 b4 then
                          let cp := (b1 - 240) * 262144 + (b2 - 128) * 4096
                                    + (b3 - 128) * 64 + (b4 - 128) in
                          (55296 + (cp - 65536) / 1024)
                            :: (56320 + (cp - 65536) mod 1024) :: units r4
                        else alone
                    | "" => alone
                    end
              | "" => alone
              end
        | "" => alone
        end
  end.

(** Well-formed text: UTF-8, so no surrogate at all. *)
Fixpoint well_formed (s : string) : bool :=
  match s with
  | "" => true
  | String c1 r1 =>
      let b1 := byte c1 in
      if b1 <? 128 then well_formed r1
      else
        match r1 with
        | String c2 r2 =>
            let b2 := byte c2 in
            if (194 <=? b1) && (b1 <=? 223) && continuation b2 then
              well_formed r2
            else
              match r2 with
              | String c3 r3 =>
                  let b3 := byte c3 in
                  if three_bytes b1 b2 b3 then
                    negb ((b1 =? 237) && (160 <=? b2)) && well_formed r3
                  else
                    match r3 with
                    | String c4 r4 =>
                        four_bytes b1 b2 b3 (byte c4) && well_formed r4
                    | "" => false
                    end
              | "" => false
              end
        | "" => false
        end
  end.

(** [querystring.escape] on code units: a unit below 0x80 stays or becomes
    [%XX]; a larger one becomes the [%XX] of the bytes of its UTF-8 form;
    a unit of the surrogate range is taken with the unit that follows it,
    whatever that is, as one code point, and throws when nothing follows.
    The bit operations of the library are written as the divisions they
    amount to: [0xC0 | (c >> 6)] is [192 + c / 64] for [c < 0x800], and
    [c & 0x3F] is [c mod 64]. *)
Fixpoint encode_units (us : list Z) : Completion string :=
  match us with
  | [] => Normal ""
  | c :: r =>
      if c <? 128 then
        and_then (encode_units r) (fun t =>
          Normal ((if unreserved (char c) then String (char c) "" else hex c)
                  +:+ t))
      else if c <? 2048 then
        and_then (encode_units r) (fun t =>
          Normal (hex (192 + c / 64) +:+ hex (128 + c mod 64) +:+ t))
      else if (c <? 55296) || (57344 <=? c) then
        and_then (encode_units r) (fun t =>
          Normal (hex (224 + c / 4096) +:+ hex (128 + (c / 64) mod 64)
                  +:+ hex (128 + c mod 64) +:+ t))
      else
        match r with
        | [] => Throw URIError
        | c2 :: r' =>
            let cp := 65536 + ((c mod 1024) * 1024 + c2 mod 1024) in
            and_then (encode_units r') (fun t =>
              Normal (hex (240 + cp / 262144)
                      +:+ hex (128 + (cp / 4096) mod 64)
                      +:+ hex (128 + (cp / 64) mod 64)
                      +:+ hex (128 + cp mod 64) +:+ t))
        end
  end.

(** [querystring.escape] *)
Definition escape (s : string) : Completion string := encode_units (units s).

(** One [name=value] field of a query string. *)
Definition encode_field (kv : string * string) : Completion string :=
  and_then (escape kv.1) (fun k =>
  and_then (escape kv.2) (fun v => Normal (k +:+ "=" +:+ v))).

(** [querystring.stringify] of an object whose values are strings. *)
Fixpoint stringify (obj : list (string * string)) : Completion string :=
  match obj with
  | [] => Normal ""
  | [kv] => encode_field kv
  | kv :: r =>
      and_then (encode_field kv) (fun f =>
      and_then (stringify r) (fun t => Normal (f +:+ "&" +:+ t)))
  end.

(** *** Reading a URL back

    The decoding side is not part of index.js; it is the usual reading of a
    URL by its receiver: the fragment is cut off at the first [#], the query
    starts after the first [?], its fields are separated by [&], a field is
    split at its first [=], and names and values are percent-decoded, [+]
    standing for a space. *)

Fixpoint cut (d : ascii) (s : string) : string * option string :=
  match s with
  | "" => ("", None)
  | String c r =>
      if Ascii.eqb c d then ("", Some r)
      else let p := cut d r in (String c p.1, p.2)
  end.

Fixpoint fields (d : ascii) (s : string) : list string :=
  match s with
  | "" => [""]
  | String c r =>
      if Ascii.eqb c d then "" :: fields d r
      else
        match fields d r with
        | [] => [String c ""]
        | f :: fs => String c f :: fs
        end
  end.

Definition hex_value (c : ascii) : option Z :=
  let n := byte c in
  if in_range 48 57 c then Some (n - 48)
  else if in_range 65 70 c then Some (n - 55)
  else if in_range 97 102 c then Some (n - 87)
  else None.

Fixpoint unescape (s : string) : string :=
  match s with
  | "" => ""
  | String c t =>
      if Ascii.eqb c "+" then String " " (unescape t)
      else if Ascii.eqb c "%" then
        match t with
        | String h (String l r) =>
            match hex_value h, hex_value l with
            | Some a, Some b => String (char (16 * a + b)) (unescape r)
            | _, _ => String c (unescape t)
            end
        | _ => String c (unescape t)
        end
      else String c (unescape t)
  end.

Definition decode_field (f : string) : string * string :=
  let p := cut "=" f in (unescape p.1, unescape (default "" p.2)).

Definition query_of (u : string) : string :=
  default "" (cut "?" (cut "#" u).1).2.

Definition query_parameters (u : string) : list (string * string) :=
  match query_of u with
  | "" => []
  | q => map decode_field (fields "&" q)
  end.

(** ** index.js *)

Definition set_store (c : Cache) (w : World) : World :=
  {| this := {| appid := appid (this w); appsecret := appsecret (this w);
                store := c |};
     clock := clock w; sent := sent w; console := console w |}.

(** [new Date().getTime()] *)
Definition Date_getTime : Sync Z := fun w => (Normal (clock w), w).

Definition console_log (v : jsval) : Sync unit := fun w =>
  (Normal tt,
   {| this := this w; clock := clock w; sent := sent w;
      console := console w ++ [v] |}).

Definition JSON_parse (body : Body) : Sync value :=
  eval match body with
       | Malformed text => Throw (SyntaxError text)
       | WellFormed json => Normal json
       end.

(** Reading an identifier that no scope binds. *)
Definition unbound (ident : string) : Sync value :=
  throw (ReferenceError ident).

(** [a || b] *)
Definition js_or (a b : value) : value := if truthy a then a else b.

(** [new Auth(appid, appsecret)] (index.js:39) *)
Definition new_Auth (appid appsecret : string) : Auth :=
  {| appid := appid; appsecret := appsecret; store := empty_object |}.

(** What the callback of a request does with the promise it closes over. *)
Inductive Settle (A : Type) : Type :=
| resolve (a : A)
| reject (e : Error).
Arguments resolve {A} a.
Arguments reject {A} e.

(** The world once [req] has been posted and its callback is about to run,
    at time [t]. *)
Definition posted (req : Request) (t : Z) (w : World) : World :=
  {| this := this w; clock := t; sent := sent w ++ [req];
     console := console w |}.

Section Session.

Context `{Host}.

(** The HTTP transport is a black box: from the requests posted before and
    the one posted now it gives the time at which the callback runs and what
    the callback is handed. *)
Variable transport : list Request -> Request -> Z * Reply.

(** [AccessToken.prototype.isValid] (index.js:19) *)
Definition isValid (token : AccessToken) : Sync bool :=
  (access_token <- eval (get_js (data token) "access_token") ;;
   if truthy access_token then
     now <- Date_getTime ;;
     create_at <- eval (get_js (data token) "create_at") ;;
     expires_in <- eval (get_js (data token) "expires_in") ;;
     product <- eval (js_mul expires_in (num 1000)) ;;
     sum <- eval (js_add create_at product) ;;
     eval (js_lt_num now sum)
   else sync_ret false)%sync.

(** [this.getToken] (index.js:44) *)
Definition getToken (openid : value) : Sync jsval :=
  (key <- eval (ToPropertyKey openid) ;;
   fun w => (Normal (lookup_cache (store (this w)) key), w))%sync.

(** [this.saveToken] (index.js:48) *)
Definition saveToken (openid token : value) : Sync unit :=
  (key <- eval (ToPropertyKey openid) ;;
   fun w => (Normal tt, set_store (assign_cache (store (this w)) key token) w))%sync.

(** [processToken] (index.js:76).  [data] is mutated in place in the source;
    here the stamped object is a new value, which is then both stored and
    wrapped. *)
Definition processToken (data : value) : Sync AccessToken :=
  (now <- Date_getTime ;;
   data <- eval (put data "create_at" (num now)) ;;
   openid <- eval (get data "openid") ;;
   _ <- saveToken openid data ;;
   sync_ret (new_AccessToken (Data data)))%sync.

(** [new Promise((resolve, reject) => request.post(url, {form}, callback))].
    The callback runs later, from the transport: an exception it throws is
    not caught by the promise. *)
Definition request_post {A} (url : string) (form : list (string * value))
    (callback : option Error -> Body -> Sync (Settle A)) : Async A := fun w =>
  let req := {| url := url; form := form |} in
  let r := transport (sent w) req in
  let w1 := posted req r.1 w in
  let args := match r.2 with
              | NetFailure cause => (Some (TransportError cause), Malformed "undefined")
              | NetResponse body => (None, body)
              end in
  match callback args.1 args.2 w1 with
  | (Normal (resolve a), w2) => (Resolved a, w2)
  | (Normal (reject e), w2) => (Rejected e, w2)
  | (Throw e, w2) => (Uncaught e, w2)
  end.

(** [getAuthorizeURL] (index.js:59); the three arguments are strings.  The
    executor of the promise runs at once, so what [querystring.stringify]
    throws rejects the promise. *)
Definition getAuthorizeURL (redirect_uri scope state : string) : Async string :=
  fun w =>
  let url := "https://open.weixin.qq.com/connect/oauth2/authorize" in
  let info := [("appid", appid (this w));
               ("redirect_uri", redirect_uri);
               ("scope", if String.eqb scope "" then "snsapi_base" else scope);
               ("state", if String.eqb state "" then "" else state);
               ("response_type", "code")] in
  match stringify info with
  | Normal query => (Resolved (url +:+ "?" +:+ query +:+ "#wechat_redirect"), w)
  | Throw e => (Rejected e, w)
  end.

Definition access_token_request (w : World) (code : value) : Request :=
  {| url := "https://api.weixin.qq.com/sns/oauth2/access_token";
     form := [("appid", VStr (appid (this w)));
              ("secret", VStr (appsecret (this w)));
              ("code", code);
              ("grant_type", VStr "authorization_code")] |}.

Definition refresh_token_request (w : World) (refreshToken : value) : Request :=
  {| url := "https://api.weixin.qq.com/sns/oauth2/refresh_token";
     form := [("appid", VStr (appid (this w)));
              ("grant_type", VStr "refresh_token");
              ("refresh_token", refreshToken)] |}.

Definition userinfo_request (openid accessToken lang : value) : Request :=
  {| url := "https://api.weixin.qq.com/sns/userinfo";
     form := [("access_token", accessToken);
              ("openid", openid);
              ("lang", js_or lang (VStr "zh_CN"))] |}.

(** The callback shared by [getAccessToken] and [refreshAccessToken]
    (index.js:117 and index.js:160). *)
Definition token_callback (err : option Error) (body : Body)
  : Sync (Settle AccessToken) :=
  match err with
  | Some err => sync_ret (reject err)
  | None =>
      (data <- JSON_parse body ;;
       token <- processToken data ;;
       sync_ret (resolve token))%sync
  end.

(** [getAccessToken] (index.js:108) *)
Definition getAccessToken (code : value) : Async AccessToken := fun w =>
  let req := access_token_request w code in
  request_post (url req) (form req) token_callback w.

(** [refreshAccessToken] (index.js:152) *)
Definition refreshAccessToken (refreshToken : value) : Async AccessToken :=
  fun w =>
  let req := refresh_token_request w refreshToken in
  request_post (url req) (form req) token_callback w.

(** [_getUser] (index.js:229) *)
Definition _getUser (openid accessToken lang : value) : Async value :=
  let req := userinfo_request openid accessToken lang in
  request_post (url req) (form req) (fun err body =>
    match err with
    | Some err => sync_ret (reject err)
    | None => (profile <- JSON_parse body ;; sync_ret (resolve profile))%sync
    end).

(** [getUser] (index.js:210).  The branch for a missing token builds its
    message from [options.openid], and the function has a parameter [openid]
    but no [options]. *)
Definition getUser (openid : value) : Async value :=
  (data' <- getToken openid ;;
   _ <- console_log data' ;;
   if negb (truthy_js data') then
     options <- unbound "options" ;;
     options_openid <- eval (get options "openid") ;;
     text <- eval (ToString options_openid) ;;
     _ <- @throw unit (NamedError "NoOAuthTokenError"
                         ("No token for " +:+ text
                          +:+ ", please authorize first.")) ;;
     async_ret VUndefined
   else
     let token := new_AccessToken data' in
     valid <- isValid token ;;
     accessToken <- await
       (if valid then
          access_token <- eval (get_js (data token) "access_token") ;;
          async_ret access_token
        else
          refresh_token <- eval (get_js (data token) "refresh_token") ;;
          newToken <- await refreshAccessToken refresh_token ;;
          access_token <- eval (get_js (data newToken) "access_token") ;;
          async_ret access_token) ;;
     profile <- await _getUser openid accessToken VUndefined ;;
     async_ret profile)%async.

(** [getUserByCode] (index.js:275) *)
Definition getUserByCode (code : value) : Async value :=
  (token <- await getAccessToken code ;;
   openid <- eval (get_js (data token) "openid") ;;
   profile <- await getUser openid ;;
   async_ret profile)%async.

End Session.

(** ** Vocabulary of the statements *)

(** The two calls that end in [processToken]. *)
Inductive TokenCall : Type :=
| Exchange (code : value)            (* [getAccessToken(code)] *)
| Refresh (refreshToken : value).    (* [refreshAccessToken(refreshToken)] *)

Definition token_request (w : World) (c : TokenCall) : Request :=
  match c with
  | Exchange code => access_token_request w code
  | Refresh refreshToken => refresh_token_request w refreshToken
  end.

Definition token_call `{Host} (transport : list Request -> Request -> Z * Reply)
    (c : TokenCall) : Async AccessToken :=
  match c with
  | Exchange code => getAccessToken transport code
  | Refresh refreshToken => refreshAccessToken transport refreshToken
  end.

(** The property [k] of [v], [undefined] where there is none to read. *)
Definition field (v : value) (k : string) : value :=
  match get v k with
  | Normal x => x
  | Throw _ => VUndefined
  end.

Definition field_js (v : jsval) (k : string) : value :=
  match get_js v k with
  | Normal x => x
  | Throw _ => VUndefined
  end.

(** The world after [console.log(v)]. *)
Definition logged (v : jsval) (w : World) : World :=
  {| this := this w; clock := clock w; sent := sent w;
     console := console w ++ [v] |}.

(** The characters that structure a URL and its query. *)
Definition delimiter (d : ascii) : bool := has d "&=#?".

(** What the callback of [_getUser] makes of a reply. *)
Definition profile_outcome (r : Reply) : Settled value :=
  match r with
  | NetFailure cause => Rejected (TransportError cause)
  | NetResponse (Malformed text) => Uncaught (SyntaxError text)
  | NetResponse (WellFormed profile) => Resolved profile
  end.

(** [getUserByCode] as the two calls a caller would make one after the
    other: [getAccessToken(code)], then [getUser] on the [openid] of the
    record it returned. *)
Definition exchange_then_profile `{Host}
    (transport : list Request -> Request -> Z * Reply) (code : value)
  : Async value := fun w =>
  match getAccessToken transport code w with
  | (Resolved record, w1) =>
      getUser transport (field_js (data record) "openid") w1
  | (Rejected e, w1) => (Rejected e, w1)
  | (Uncaught e, w1) => (Uncaught e, w1)
  end.

(** [querystring.escape] where no code unit is a surrogate on its own:
    byte by byte. *)
Definition percent_byte (c : ascii) : string :=
  if unreserved c then String c "" else hex (byte c).

Fixpoint percent (s : string) : string :=
  match s with
  | "" => ""
  | String c r => percent_byte c +:+ percent r
  end.

(** ** Sample sessions *)

(** A host for runs in which no number is made a string, no string a
    number, and no array is read as a prototype: what it answers is never
    looked at. *)
Definition no_conversion : Host :=
  {| NumberToString := fun _ => "";
     StringToNumber := fun _ => NaN;
     Array_prototype_has := fun _ => false |}.

(** A transport that gives every request the same reply at time [t]. *)
Definition always (t : Z) (r : Reply) : list Request -> Request -> Z * Reply :=
  fun _ _ => (t, r).

(** A transport that answers the token endpoints with [token] and the
    user-info endpoint with [profile], at time [t]. *)
Definition provider (t : Z) (token profile : value)
  : list Request -> Request -> Z * Reply :=
  fun _ req =>
    (t, NetResponse (WellFormed
          (if String.eqb (url req) "https://api.weixin.qq.com/sns/userinfo"
           then profile else token))).

Definition token_of (access refresh openid : string) (expires_in create_at : Z)
  : value :=
  VObj [("access_token", VStr access); ("expires_in", num expires_in);
        ("refresh_token", VStr refresh); ("openid", VStr openid);
        ("scope", VStr "snsapi_base"); ("create_at", num create_at)].

Definition sample_profile : value :=
  VObj [("openid", VStr "U1"); ("nickname", VStr "NICKNAME");
        ("privilege", VArr [VStr "PRIVILEGE1"] [])].

(** The world at time [t] around [new Auth("appid", "secret")], before
    anything is posted or printed. *)
Definition fresh_session (t : Z) : World :=
  {| this := new_Auth "appid" "secret"; clock := t; sent := []; console := [] |}.

(** The same session once its cache holds the entries [m]. *)
Definition session (t : Z) (m : gmap string value) : World :=
  set_store {| own := m; proto := ObjectPrototype |} (fresh_session t).

(** ** Sessions in use *)

(** The world when the clock reads [t]. *)
Definition at_time (t : Z) (w : World) : World :=
  {| this := this w; clock := t; sent := sent w; console := console w |}.

(** What the holder of a session does with it: a call of one of the methods
    of [Auth.prototype], or letting the clock move to [t]. *)
Inductive Step : Type :=
| do_getAuthorizeURL (redirect_uri scope state : string)
| do_getAccessToken (code : value)
| do_refreshAccessToken (refreshToken : value)
| do_getUser (openid : value)
| do_getUserByCode (code : value)
| do_wait (t : Z).

(** The world a step leaves behind, whatever the step returned. *)
Definition after `{Host} (transport : list Request -> Request -> Z * Reply)
    (s : Step) (w : World) : World :=
  match s with
  | do_getAuthorizeURL redirect_uri scope state =>
      (getAuthorizeURL redirect_uri scope state w).2
  | do_getAccessToken code => (getAccessToken transport code w).2
  | do_refreshAccessToken refreshToken =>
      (refreshAccessToken transport refreshToken w).2
  | do_getUser openid => (getUser transport openid w).2
  | do_getUserByCode code => (getUserByCode transport code w).2
  | do_wait t => at_time t w
  end.

Definition after_all `{Host} (transport : list Request -> Request -> Z * Reply)
    (steps : list Step) (w : World) : World :=
  fold_left (fun w s => after transport s w) steps w.

(** [cache_grows c c']: [c'] is [c] after assignments [store[k] = d] of
    payloads that [processToken] has stamped. *)
Inductive cache_grows (c : Cache) : Cache -> Prop :=
| grows_none : cache_grows c c
| grows_save c' k payload t d :
    cache_grows c c' →
    put payload "create_at" (num t) = Normal d →
    cache_grows c (assign_cache c' k d).

(** A transport that reports a failure for every request. *)
Definition offline (transport : list Request -> Request -> Z * Reply) : Prop :=
  ∀ history req, ∃ cause, (transport history req).2 = NetFailure cause.


(** The code unit U+D800, a high surrogate, with nothing after it. *)
Definition lone_surrogate : string :=
  String (char 237) (String (char 160) (String (char 128) "")).
(** The validity check as a function of the record and the time. *)
Definition validity `{Host} (d : jsval) (now : Z) : Completion bool :=
  and_then (get_js d "access_token") (fun access_token =>
    if truthy access_token then
      and_then (get_js d "create_at") (fun create_at =>
      and_then (get_js d "expires_in") (fun expires_in =>
      and_then (js_mul expires_in (num 1000)) (fun product =>
      and_then (js_add create_at product) (fun sum =>
      js_lt_num now sum))))
    else Normal false).

(** * Properties *)

(** ** Numbers *)

Lemma bits_small z : Z.abs z < 2 ^ 53 → bits z ≤ 53.
Proof.
  intros Hz. unfold bits. destruct (z =? 0) eqn:E; [lia|].
  apply Z.eqb_neq in E.
  assert (Z.log2 (Z.abs z) < 53); [|lia].
  apply Z.log2_lt_pow2; lia.
Qed.

Lemma round_exact z : Z.abs z < 2 ^ 53 → round z 0 = Fin z 0.
Proof.
  intros Hz. pose proof (bits_small z Hz) as Hb. unfold round.
  assert ((0 <? Z.max (bits z - 53) (- 1074 - 0)) = false) as ->
    by (apply Z.ltb_ge; lia).
  assert ((1024 <? bits z + 0) = false) as -> by (apply Z.ltb_ge; lia).
  unfold canonical. simpl. by rewrite Z.mul_1_r.
Qed.

Lemma number_mul_exact a b :
  Z.abs (a * b) < 2 ^ 53 → number_mul (Fin a 0) (Fin b 0) = Fin (a * b) 0.
Proof. intros Hz. simpl. by apply round_exact. Qed.

Lemma number_add_exact a b :
  Z.abs (a + b) < 2 ^ 53 → number_add (Fin a 0) (Fin b 0) = Fin (a + b) 0.
Proof.
  intros Hz. simpl. rewrite !Z.mul_1_r. by apply round_exact.
Qed.

Lemma number_lt_integers a b : number_lt (Fin a 0) (Fin b 0) = (a <? b).
Proof. simpl. by rewrite !Z.mul_1_r. Qed.

(** [t < y] holds for every time before one for which it holds. *)
Lemma number_lt_earlier t t' y :
  t ≤ t' → number_lt (Fin t' 0) y = true → number_lt (Fin t 0) y = true.
Proof.
  intros Hle. destruct y as [|b|m e]; simpl; [done|done|].
  intros Hlt%Z.ltb_lt. apply Z.ltb_lt.
  assert (0 < 2 ^ (0 - Z.min 0 e)) by (apply Z.pow_pos_nonneg; lia).
  nia.
Qed.

(** ** Objects *)

Lemma assoc_set_eq k x ps : assoc k (assoc_set k x ps) = Some x.
Proof.
  induction ps as [|[k' v] r IH]; simpl.
  - by rewrite String.eqb_refl.
  - destruct (String.eqb k k') eqn:E; simpl; rewrite ?String.eqb_refl, ?E; done.
Qed.

Lemma assoc_set_ne k k' x ps :
  k ≠ k' → assoc k' (assoc_set k x ps) = assoc k' ps.
Proof.
  intros Hne. induction ps as [|[k0 v] r IH]; simpl.
  - destruct (String.eqb k' k) eqn:E; [|done].
    apply String.eqb_eq in E. congruence.
  - destruct (String.eqb k k0) eqn:E; simpl.
    + apply String.eqb_eq in E. subst k0.
      destruct (String.eqb k' k) eqn:E'; [|done].
      apply String.eqb_eq in E'. congruence.
    + by rewrite IH.
Qed.

Lemma put_object v k x :
  is_object v = true → ∃ v', put v k x = Normal v' ∧ is_object v' = true.
Proof. destruct v; try discriminate; simpl; eauto. Qed.

Lemma get_put_eq v k x v' : is_object v = true →
  put v k x = Normal v' → get v' k = Normal x.
Proof.
  destruct v; try discriminate; simpl; intros _ [= <-]; simpl;
    by rewrite assoc_set_eq.
Qed.

Lemma get_put_ne v k k' x v' : k ≠ k' →
  put v k x = Normal v' → get v' k' = get v k'.
Proof.
  intros Hne. destruct v; try discriminate; simpl; intros [= <-]; simpl;
    try done; by rewrite assoc_set_ne.
Qed.

Lemma put_normal_get v k x v' k' :
  put v k x = Normal v' → ∃ y, get v' k' = Normal y.
Proof. destruct v; try discriminate; simpl; intros [= <-]; simpl; eauto. Qed.

Lemma put_throws v k x e : put v k x = Throw e → e = TypeError k.
Proof. destruct v; simpl; congruence. Qed.

Lemma truthy_get v k : truthy v = true → ∃ y, get v k = Normal y.
Proof. destruct v; try discriminate; simpl; eauto. Qed.

Lemma truthy_get_js v k : truthy_js v = true → get_js v k = Normal (field_js v k).
Proof.
  destruct v as [d|n]; simpl; [|done]. intros [y Hy]%(truthy_get d k).
  unfold field_js. simpl. by rewrite Hy.
Qed.

Lemma truthy_get_field v k : truthy v = true → get v k = Normal (field v k).
Proof. intros [y Hy]%(truthy_get v k). unfold field. by rewrite Hy. Qed.

Lemma put_get_field v k x v' k' :
  put v k x = Normal v' → get v' k' = Normal (field v' k').
Proof. intros [y Hy]%(put_normal_get v k x v' k'). unfold field. by rewrite Hy. Qed.

Lemma stamped_field payload t d k :
  put payload "create_at" (num t) = Normal d → k ≠ "create_at" →
  field d k = field payload k.
Proof.
  intros Hput Hk. unfold field.
  by rewrite (get_put_ne payload "create_at" k _ d ltac:(congruence) Hput).
Qed.


(** ** The cache object *)

Lemma assign_cache_own c k v :
  k ≠ "__proto__" →
  assign_cache c k v = {| own := <[k := v]> (own c); proto := proto c |}.
Proof.
  intros Hk. unfold assign_cache.
  destruct (String.eqb k "__proto__") eqn:E; [|done].
  by apply String.eqb_eq in E.
Qed.

Lemma assign_cache_keeps c k v k' :
  is_Some (own c !! k') → is_Some (own (assign_cache c k v) !! k').
Proof.
  intros Hk'. unfold assign_cache.
  destruct (_ && _); [by destruct v|]. simpl.
  destruct (decide (k = k')) as [->|Hne].
  - rewrite lookup_insert_eq. by eexists.
  - by rewrite lookup_insert_ne.
Qed.


Section CacheProperties.

Context `{Host}.

Lemma lookup_assign_eq c k v :
  k ≠ "__proto__" → lookup_cache (assign_cache c k v) k = Data v.
Proof.
  intros Hk. rewrite assign_cache_own by done. unfold lookup_cache. simpl.
  by rewrite lookup_insert_eq.
Qed.

Lemma lookup_assign_ne c k v k' :
  k ≠ "__proto__" → k' ≠ k →
  lookup_cache (assign_cache c k v) k' = lookup_cache c k'.
Proof.
  intros Hk Hne. rewrite assign_cache_own by done. unfold lookup_cache. simpl.
  by rewrite lookup_insert_ne.
Qed.

(** ** Conversions of the values the provider documents *)

Lemma ToPropertyKey_string s : ToPropertyKey (VStr s) = Normal s.
Proof. done. Qed.

(** Induction on data, elements of arrays included. *)
Lemma value_nested_ind (P : value → Prop) :
  (∀ v, (∀ items props, v = VArr items props → Forall P items) → P v) →
  ∀ v, P v.
Proof.
  intros Hstep. fix go 1. intros v. apply Hstep.
  destruct v as [| | | | | |items props]; try done.
  intros ? ? [= <- <-].
  induction items as [|x r IHr]; constructor; [apply go|apply IHr].
Qed.

(** The one way a conversion to a string fails. *)
Lemma ToString_throws v e : ToString v = Throw e → e = TypeError "toString".
Proof.
  revert e. induction v as [v IH] using value_nested_ind.
  destruct v as [| |[|]|x|s|props|items props]; intros e; simpl; try done.
  - destruct (assoc "toString" props); congruence.
  - destruct (assoc "toString" props); [congruence|].
    destruct (assoc "join" props); [done|].
    specialize (IH items props eq_refl).
    revert e. induction IH as [|x r Hx _ IHr]; intros e; [done|].
    assert (∀ e', match x with
                  | VUndefined | VNull => Normal ""
                  | _ => ToString x
                  end = Throw e' → e' = TypeError "toString") as Hx'.
    { intros e'. destruct x; try done; apply Hx. }
    destruct r as [|y r']; [apply Hx'|].
    destruct (match x with VUndefined | VNull => Normal "" | _ => ToString x end)
      as [sx|ex] eqn:Ex; simpl.
    + match goal with
      | |- and_then ?j _ = _ → _ => destruct j as [t|et] eqn:Et
      end; simpl; [done|].
      intros [= <-]. by apply IHr.
    + intros [= <-]. by apply Hx'.
Qed.

Lemma ToPropertyKey_throws v e :
  ToPropertyKey v = Throw e → ∃ k, e = TypeError k.
Proof. intros ->%ToString_throws. by eexists. Qed.

Lemma js_mul_exact a b :
  Z.abs (a * b) < 2 ^ 53 → js_mul (num a) (num b) = Normal (num (a * b)).
Proof. intros Hz. unfold js_mul. simpl. by rewrite round_exact. Qed.

Lemma js_add_exact a b :
  Z.abs (a + b) < 2 ^ 53 → js_add (num a) (num b) = Normal (num (a + b)).
Proof.
  intros Hz. unfold js_add. simpl. by rewrite !Z.mul_1_r, round_exact.
Qed.

Lemma js_lt_num_integer t y : js_lt_num t (num y) = Normal (t <? y).
Proof. unfold js_lt_num. simpl. by rewrite !Z.mul_1_r. Qed.

(** ** The validity check *)

Lemma isValid_validity token w :
  isValid token w = (validity (data token) (clock w), w).
Proof.
  unfold isValid, validity, sync_bind, eval, Date_getTime, sync_ret.
  destruct (get_js (data token) "access_token") as [a|]; [|done]. simpl.
  destruct (truthy a); [|done].
  destruct (get_js (data token) "create_at") as [c|]; [|done]. simpl.
  destruct (get_js (data token) "expires_in") as [e|]; [|done]. simpl.
  destruct (js_mul e (num 1000)) as [p|]; [|done]. simpl.
  by destruct (js_add c p).
Qed.

Lemma validity_true_truthy d now :
  validity d now = Normal true → truthy_js d = true.
Proof.
  unfold validity. destruct d as [v|n]; [|done]. simpl.
  destruct v; simpl; try done.
Qed.

Lemma validity_typed d now (a : value) (c e : Z) :
  get_js d "access_token" = Normal a →
  get_js d "create_at" = Normal (num c) →
  get_js d "expires_in" = Normal (num e) →
  Z.abs (e * 1000) < 2 ^ 53 →
  Z.abs (c + e * 1000) < 2 ^ 53 →
  validity d now = Normal (truthy a && (now <? c + e * 1000)).
Proof.
  intros Ha Hc He H1 H2. unfold validity. rewrite Ha. cbn [and_then].
  destruct (truthy a); [|done]. rewrite Hc, He. cbn [and_then].
  rewrite js_mul_exact by done. cbn [and_then].
  rewrite js_add_exact by done. cbn [and_then].
  by rewrite js_lt_num_integer.
Qed.

(** The conversions of the check fail in one way only. *)
Lemma ToPrimitive_throws v e : ToPrimitive v = Throw e → ∃ k, e = TypeError k.
Proof.
  unfold ToPrimitive. destruct v; try done;
    match goal with
    | |- and_then ?c _ = _ → _ => destruct c eqn:E
    end; cbn [and_then]; try done; intros [= <-];
    apply ToString_throws in E; by eexists.
Qed.

Lemma ToNumber_throws v e : ToNumber v = Throw e → ∃ k, e = TypeError k.
Proof.
  unfold ToNumber. destruct (ToPrimitive v) eqn:E; simpl; [done|].
  intros [= <-]. by eapply ToPrimitive_throws.
Qed.

Lemma ToPrimitive_primitive v p :
  ToPrimitive v = Normal p → is_object p = false.
Proof.
  unfold ToPrimitive. destruct v; try (by intros [= <-]);
    destruct (ToString _); cbn [and_then]; by intros [= <-].
Qed.

Lemma js_mul_throws a b e : js_mul a b = Throw e → ∃ k, e = TypeError k.
Proof.
  unfold js_mul. destruct (ToNumber a) eqn:Ea; cbn [and_then];
    [|intros [= <-]; by eapply ToNumber_throws].
  destruct (ToNumber b) eqn:Eb; cbn [and_then]; [done|].
  intros [= <-]. by eapply ToNumber_throws.
Qed.

Lemma js_add_throws a b e : js_add a b = Throw e → ∃ k, e = TypeError k.
Proof.
  unfold js_add. destruct (ToPrimitive a) as [pa|] eqn:Ea; cbn [and_then];
    [|intros [= <-]; by eapply ToPrimitive_throws].
  destruct (ToPrimitive b) as [pb|] eqn:Eb; cbn [and_then];
    [|intros [= <-]; by eapply ToPrimitive_throws].
  apply ToPrimitive_primitive in Ea, Eb.
  destruct pa as [| |[|]| | | |], pb as [| |[|]| | | |]; done.
Qed.

Lemma get_js_throws d k e : get_js d k = Throw e → e = TypeError k.
Proof. destruct d as [[]|]; simpl; congruence. Qed.

Lemma validity_throws d now e :
  validity d now = Throw e → ∃ k, e = TypeError k.
Proof.
  unfold validity.
  destruct (get_js d "access_token") as [a|] eqn:Ha; cbn [and_then];
    [|intros [= <-]; apply get_js_throws in Ha; by eexists].
  destruct (truthy a); [|done].
  destruct (get_js d "create_at") as [c|] eqn:Hc; cbn [and_then];
    [|intros [= <-]; apply get_js_throws in Hc; by eexists].
  destruct (get_js d "expires_in") as [x|] eqn:He; cbn [and_then];
    [|intros [= <-]; apply get_js_throws in He; by eexists].
  destruct (js_mul x (num 1000)) as [p|] eqn:Hp; cbn [and_then];
    [|intros [= <-]; by eapply js_mul_throws].
  destruct (js_add c p) as [s|] eqn:Hs; cbn [and_then];
    [|intros [= <-]; by eapply js_add_throws].
  unfold js_lt_num. destruct (ToNumber s) eqn:Hn; cbn [and_then]; [done|].
  intros [= <-]. by eapply ToNumber_throws.
Qed.

End CacheProperties.

(** ** Requests and the token callback *)

Section Properties.

Context `{Host}.
Variable transport : list Request -> Request -> Z * Reply.

(** [processToken] in one piece: the stamp can fail, then the conversion of
    the payload's [openid] to a property name can. *)
Lemma processToken_run payload w :
  processToken payload w =
    match put payload "create_at" (num (clock w)) with
    | Throw e => (Throw e, w)
    | Normal d =>
        match ToPropertyKey (field payload "openid") with
        | Throw e => (Throw e, w)
        | Normal key =>
            (Normal (new_AccessToken (Data d)),
             set_store (assign_cache (store (this w)) key d) w)
        end
    end.
Proof.
  unfold processToken, sync_bind, Date_getTime, eval, saveToken, sync_ret.
  destruct (put payload "create_at" (num (clock w))) as [d|e] eqn:Hput; [|done].
  destruct (put_normal_get _ _ _ _ "openid" Hput) as [o Ho].
  rewrite Ho. unfold field.
  rewrite <- (get_put_ne payload "create_at" "openid" _ d ltac:(done) Hput), Ho.
  by destruct (ToPropertyKey o).
Qed.

Lemma token_call_post c w :
  token_call transport c w =
    request_post transport (url (token_request w c)) (form (token_request w c))
      token_callback w.
Proof. by destruct c. Qed.

(** A token call in one piece. *)
Lemma token_call_run c w :
  token_call transport c w =
    let req := token_request w c in
    let r := transport (sent w) req in
    let w1 := posted req r.1 w in
    match r.2 with
    | NetFailure cause => (Rejected (TransportError cause), w1)
    | NetResponse (Malformed text) => (Uncaught (SyntaxError text), w1)
    | NetResponse (WellFormed payload) =>
        match put payload "create_at" (num r.1) with
        | Throw e => (Uncaught e, w1)
        | Normal d =>
            match ToPropertyKey (field payload "openid") with
            | Throw e => (Uncaught e, w1)
            | Normal key =>
                (Resolved (new_AccessToken (Data d)),
                 set_store (assign_cache (store (this w)) key d) w1)
            end
        end
    end.
Proof.
  rewrite token_call_post. unfold request_post.
  destruct (token_request w c) as [u f]. simpl.
  destruct (transport (sent w) _) as [t [cause|[text|payload]]]; simpl;
    [done|done|].
  unfold sync_bind, JSON_parse, eval, sync_ret. rewrite processToken_run. simpl.
  destruct (put payload "create_at" (num t)) as [d|e]; [|done].
  by destruct (ToPropertyKey (field payload "openid")).
Qed.

Lemma token_call_failure c w t cause :
  transport (sent w) (token_request w c) = (t, NetFailure cause) →
  token_call transport c w =
    (Rejected (TransportError cause), posted (token_request w c) t w).
Proof. intros E. rewrite token_call_run. simpl. by rewrite E. Qed.

Lemma token_call_malformed c w t text :
  transport (sent w) (token_request w c) = (t, NetResponse (Malformed text)) →
  token_call transport c w =
    (Uncaught (SyntaxError text), posted (token_request w c) t w).
Proof. intros E. rewrite token_call_run. simpl. by rewrite E. Qed.

Lemma token_call_stamped c w t payload d key :
  transport (sent w) (token_request w c) = (t, NetResponse (WellFormed payload)) →
  put payload "create_at" (num t) = Normal d →
  ToPropertyKey (field payload "openid") = Normal key →
  token_call transport c w =
    (Resolved (new_AccessToken (Data d)),
     set_store (assign_cache (store (this w)) key d)
       (posted (token_request w c) t w)).
Proof.
  intros E Hput Hkey. rewrite token_call_run. simpl. rewrite E. simpl.
  by rewrite Hput, Hkey.
Qed.

Lemma token_call_not_stamped c w t payload e :
  transport (sent w) (token_request w c) = (t, NetResponse (WellFormed payload)) →
  put payload "create_at" (num t) = Throw e →
  token_call transport c w = (Uncaught e, posted (token_request w c) t w).
Proof.
  intros E Hput. rewrite token_call_run. simpl. rewrite E. simpl.
  by rewrite Hput.
Qed.

Lemma token_call_no_key c w t payload d e :
  transport (sent w) (token_request w c) = (t, NetResponse (WellFormed payload)) →
  put payload "create_at" (num t) = Normal d →
  ToPropertyKey (field payload "openid") = Throw e →
  token_call transport c w = (Uncaught e, posted (token_request w c) t w).
Proof.
  intros E Hput Hkey. rewrite token_call_run. simpl. rewrite E. simpl.
  by rewrite Hput, Hkey.
Qed.

(** A token call that resolves has read a body that parses, and returns the
    stamped payload. *)
Lemma token_call_resolved c w token w' :
  token_call transport c w = (Resolved token, w') →
  ∃ t payload d key,
    transport (sent w) (token_request w c) = (t, NetResponse (WellFormed payload)) ∧
    put payload "create_at" (num t) = Normal d ∧
    ToPropertyKey (field payload "openid") = Normal key ∧
    token = new_AccessToken (Data d) ∧
    w' = set_store (assign_cache (store (this w)) key d)
           (posted (token_request w c) t w).
Proof.
  rewrite token_call_run. simpl.
  destruct (transport (sent w) (token_request w c))
    as [t [cause|[text|payload]]] eqn:E; simpl; [done|done|].
  destruct (put payload "create_at" (num t)) as [d|e] eqn:Hput; [|done].
  destruct (ToPropertyKey (field payload "openid")) as [key|e] eqn:Hkey; [|done].
  intros [= <- <-]. by exists t, payload, d, key.
Qed.

Lemma token_call_sent c w :
  sent (token_call transport c w).2 = (sent w ++ [token_request w c])%list.
Proof.
  rewrite token_call_run. simpl.
  destruct (transport (sent w) (token_request w c))
    as [t [cause|[text|payload]]]; simpl; [done|done|].
  destruct (put payload "create_at" (num t)) as [d|e]; [|done].
  by destruct (ToPropertyKey (field payload "openid")).
Qed.

Lemma token_call_console c w :
  console (token_call transport c w).2 = console w.
Proof.
  rewrite token_call_run. simpl.
  destruct (transport (sent w) (token_request w c))
    as [t [cause|[text|payload]]]; simpl; [done|done|].
  destruct (put payload "create_at" (num t)) as [d|e]; [|done].
  by destruct (ToPropertyKey (field payload "openid")).
Qed.

(** How a token call can end. *)
Lemma token_call_outcome c w :
  match (token_call transport c w).1 with
  | Resolved _ => True
  | Rejected e => ∃ cause, e = TransportError cause
  | Uncaught e => (∃ text, e = SyntaxError text) ∨ (∃ k, e = TypeError k)
  end.
Proof.
  rewrite token_call_run. simpl.
  destruct (transport (sent w) (token_request w c))
    as [t [cause|[text|payload]]]; simpl; [by eexists|left; by eexists|].
  destruct (put payload "create_at" (num t)) as [d|e] eqn:Hput.
  - destruct (ToPropertyKey (field payload "openid")) as [key|e] eqn:Hkey;
      [done|]. simpl. right. by apply ToPropertyKey_throws in Hkey.
  - simpl. right. apply put_throws in Hput. by eexists.
Qed.

Lemma _getUser_post openid accessToken lang w :
  _getUser transport openid accessToken lang w =
    let req := userinfo_request openid accessToken lang in
    let r := transport (sent w) req in
    (profile_outcome r.2, posted req r.1 w).
Proof.
  unfold _getUser, request_post. simpl.
  destruct (transport _ _) as [t [cause|[text|profile]]]; done.
Qed.

Lemma _getUser_malformed openid accessToken lang w t text :
  transport (sent w) (userinfo_request openid accessToken lang)
    = (t, NetResponse (Malformed text)) →
  _getUser transport openid accessToken lang w =
    (Uncaught (SyntaxError text),
     posted (userinfo_request openid accessToken lang) t w).
Proof. intros E. rewrite _getUser_post. simpl. by rewrite E. Qed.

(** ** [getUser] *)

Lemma await_async_ret {A} (m : Async A) w : await m (fun a => async_ret a) w = m w.
Proof. unfold await, async_ret. by destruct (m w) as [[a|e|e] w1]. Qed.

Lemma getToken_run openid w :
  getToken openid w =
    match ToPropertyKey openid with
    | Normal key => (Normal (lookup_cache (store (this w)) key), w)
    | Throw e => (Throw e, w)
    end.
Proof. unfold getToken, sync_bind, eval. by destruct (ToPropertyKey openid). Qed.

Lemma getToken_normal openid w d w' :
  getToken openid w = (Normal d, w') →
  w' = w ∧ ∃ key, ToPropertyKey openid = Normal key ∧
                  d = lookup_cache (store (this w)) key.
Proof.
  rewrite getToken_run. destruct (ToPropertyKey openid) as [key|e]; [|done].
  intros [= <- <-]. eauto.
Qed.

(** [getUser] in one piece. *)
Lemma getUser_run openid w :
  getUser transport openid w =
    match ToPropertyKey openid with
    | Throw e => (Rejected e, w)
    | Normal key =>
        let d := lookup_cache (store (this w)) key in
        if truthy_js d then
          match validity d (clock w) with
          | Normal true =>
              _getUser transport openid (field_js d "access_token") VUndefined
                (logged d w)
          | Normal false =>
              match refreshAccessToken transport (field_js d "refresh_token")
                      (logged d w) with
              | (Resolved newToken, w2) =>
                  _getUser transport openid
                    (field_js (data newToken) "access_token") VUndefined w2
              | (Rejected e, w2) => (Rejected e, w2)
              | (Uncaught e, w2) => (Uncaught e, w2)
              end
          | Throw e => (Rejected e, logged d w)
          end
        else (Rejected (ReferenceError "options"), logged d w)
    end.
Proof.
  unfold getUser, run at 1. rewrite getToken_run.
  destruct (ToPropertyKey openid) as [key|e]; [|done]. simpl.
  set (d := lookup_cache (store (this w)) key).
  unfold run at 1, console_log. fold (logged d w).
  destruct (truthy_js d) eqn:Ht; simpl; [|done].
  unfold run at 1. rewrite isValid_validity. simpl.
  destruct (validity d (clock w)) as [[|]|e]; [| |done].
  - unfold await at 1, run at 1, eval.
    rewrite (truthy_get_js d "access_token" Ht). unfold async_ret at 1.
    apply await_async_ret.
  - unfold await at 1, run at 1, eval.
    rewrite (truthy_get_js d "refresh_token" Ht). unfold await at 1.
    destruct (refreshAccessToken transport _ _) as [[newToken|e|e] w2] eqn:E;
      [|done|done].
    apply (token_call_resolved (Refresh _)) in E
      as (t & payload & d' & key' & _ & Hput & _ & -> & _).
    unfold run, eval. simpl.
    rewrite (put_get_field _ _ _ _ "access_token" Hput). unfold async_ret at 1.
    unfold field_js. simpl. rewrite (put_get_field _ _ _ _ "access_token" Hput).
    apply await_async_ret.
Qed.

(** [getUserByCode] in one piece: reading the [openid] of a record that a
    token call returned does not throw. *)
Lemma getUserByCode_run code w :
  getUserByCode transport code w =
    match getAccessToken transport code w with
    | (Resolved record, w1) =>
        getUser transport (field_js (data record) "openid") w1
    | (Rejected e, w1) => (Rejected e, w1)
    | (Uncaught e, w1) => (Uncaught e, w1)
    end.
Proof.
  unfold getUserByCode, await at 1.
  destruct (getAccessToken transport code w) as [[record|e|e] w1] eqn:E;
    [|done|done].
  apply (token_call_resolved (Exchange code)) in E
    as (t & payload & d & key & _ & Hput & _ & -> & _).
  unfold run, eval, field_js. simpl.
  rewrite (put_get_field _ _ _ _ "openid" Hput).
  apply await_async_ret.
Qed.

End Properties.

(** ** The validity rule *)

Section Validity.

Context `{Host}.

(** C2.  A token record whose [create_at] and [expires_in] are integers
    [c] and [e] with [e * 1000] and [c + e * 1000] below 2^53 in absolute
    value (no rounding) is valid exactly when its [access_token] is truthy
    and the current time in milliseconds is strictly below
    [c + e * 1000]; at the boundary, and for a record created 2000 ms ago
    that lives one second, the check answers false. *)
Theorem isValid_rule token w (a : value) (c e : Z) :
  get_js (data token) "access_token" = Normal a →
  get_js (data token) "create_at" = Normal (num c) →
  get_js (data token) "expires_in" = Normal (num e) →
  Z.abs (e * 1000) < 2 ^ 53 →
  Z.abs (c + e * 1000) < 2 ^ 53 →
  ∃ b : bool,
    isValid token w = (Normal b, w) ∧
    (b = true ↔ truthy a = true ∧ clock w < c + e * 1000) ∧
    (clock w = c + e * 1000 → b = false) ∧
    (e = 1 → c = clock w - 2000 → b = false).
Proof.
  intros Ha Hc He H1 H2. eexists. split.
  { rewrite isValid_validity. f_equal. by apply validity_typed. }
  split; [|split].
  - rewrite andb_true_iff, Z.ltb_lt. done.
  - intros ->. rewrite Z.ltb_irrefl. apply andb_false_r.
  - intros -> ->. replace (clock w <? clock w - 2000 + 1 * 1000) with false.
    + apply andb_false_r.
    + symmetry. apply Z.ltb_ge. lia.
Qed.

(** A token that is valid at some time was valid at every earlier time:
    once [isValid] has answered false for a token, it does not answer true
    for it later. *)
Theorem isValid_earlier token w w' :
  clock w ≤ clock w' →
  (isValid token w').1 = Normal true →
  (isValid token w).1 = Normal true.
Proof.
  intros Hle. rewrite !isValid_validity. simpl. unfold validity.
  destruct (get_js (data token) "access_token") as [a|]; [|done]. simpl.
  destruct (truthy a); [|done].
  destruct (get_js (data token) "create_at") as [c|]; [|done]. simpl.
  destruct (get_js (data token) "expires_in") as [e|]; [|done]. simpl.
  destruct (js_mul e (num 1000)) as [p|]; [|done]. simpl.
  destruct (js_add c p) as [s|]; [|done]. simpl.
  unfold js_lt_num. destruct (ToNumber s) as [y|]; [|done]. simpl.
  intros [= Hlt]. f_equal. by apply (number_lt_earlier _ (clock w')).
Qed.

(** A stamped record without [expires_in] (what the provider sends for a
    rejected code, once stamped) is not valid at any time, whatever its
    [access_token]. *)
Theorem isValid_without_expires_in token w (c : Z) :
  get_js (data token) "create_at" = Normal (num c) →
  get_js (data token) "expires_in" = Normal VUndefined →
  isValid token w = (Normal false, w).
Proof.
  intros Hc He. rewrite isValid_validity. f_equal. unfold validity.
  destruct (get_js (data token) "access_token") as [a|e] eqn:Ha.
  - simpl. destruct (truthy a); [|done]. by rewrite Hc, He.
  - destruct (data token) as [[]|]; simpl in *; done.
Qed.

End Validity.

(** ** The calls *)

Section Calls.

Context `{Host}.
Variable transport : list Request -> Request -> Z * Reply.

(** C8.  When the transport reports a failure, [getAccessToken] and
    [refreshAccessToken] are rejected with the error the transport gave;
    the request was posted once and is not posted again, and the token
    cache is as it was. *)
Theorem transport_failure_rejects c w t cause :
  transport (sent w) (token_request w c) = (t, NetFailure cause) →
  ∃ w',
    token_call transport c w = (Rejected (TransportError cause), w') ∧
    sent w' = (sent w ++ [token_request w c])%list ∧
    store (this w') = store (this w).
Proof.
  intros E. eexists. split; [by apply token_call_failure|]. done.
Qed.

(** C5.  When [getAccessToken] or [refreshAccessToken] receives a body that
    parses to an object whose [openid] converts to a property name other
    than [__proto__], the call resolves; the payload has [create_at] set
    to the time at which the response is handled, whatever [create_at] the
    provider sent, and keeps its other properties; the stamped payload is
    what the cache holds under the payload's [openid] (the string itself
    when it is one), whatever was there before, and it is the [data] of the
    token returned. *)
Theorem token_response_stamped_and_stored c w t payload key :
  transport (sent w) (token_request w c) = (t, NetResponse (WellFormed payload)) →
  is_object payload = true →
  ToPropertyKey (field payload "openid") = Normal key →
  key ≠ "__proto__" →
  ∃ d w',
    token_call transport c w = (Resolved (new_AccessToken (Data d)), w') ∧
    clock w' = t ∧
    get d "create_at" = Normal (num t) ∧
    (∀ k, k ≠ "create_at" → get d k = get payload k) ∧
    own (store (this w')) = <[key := d]> (own (store (this w))) ∧
    proto (store (this w')) = proto (store (this w)) ∧
    getToken (VStr key) w' = (Normal (Data d), w') ∧
    (∀ u, get payload "openid" = Normal (VStr u) → key = u).
Proof.
  intros E Hobj Hkey Hne.
  destruct (put_object payload "create_at" (num t) Hobj) as (d & Hput & _).
  exists d. eexists. split; [by eapply token_call_stamped|].
  rewrite assign_cache_own by done. repeat split.
  - by eapply get_put_eq.
  - intros k Hk. eapply get_put_ne; [|done]. congruence.
  - rewrite getToken_run. simpl. unfold lookup_cache. simpl.
    by rewrite lookup_insert_eq.
  - intros u Hu. unfold field in Hkey. rewrite Hu in Hkey. simpl in Hkey.
    congruence.
Qed.

(** C3.  With a token for [openid] in the cache that is valid at the time of
    the call, [getUser] posts one request, the user-info request carrying
    the cached [access_token], the [openid] and the language [zh_CN]; it
    posts no refresh request, ends as that request ends, and leaves the
    cache as it was. *)
Theorem getUser_valid_uses_cached_token openid d w :
  getToken openid w = (Normal d, w) →
  (isValid (new_AccessToken d) w).1 = Normal true →
  ∃ accessToken w',
    get_js d "access_token" = Normal accessToken ∧
    let fetch := {| url := "https://api.weixin.qq.com/sns/userinfo";
                    form := [("access_token", accessToken);
                             ("openid", openid);
                             ("lang", VStr "zh_CN")] |} in
    getUser transport openid w =
      (match (transport (sent w) fetch).2 with
       | NetFailure cause => Rejected (TransportError cause)
       | NetResponse (Malformed text) => Uncaught (SyntaxError text)
       | NetResponse (WellFormed profile) => Resolved profile
       end, w') ∧
    sent w' = (sent w ++ [fetch])%list ∧
    store (this w') = store (this w).
Proof.
  intros (_ & key & Hkey & ->)%getToken_normal Hv.
  rewrite isValid_validity in Hv. simpl in Hv.
  pose proof (validity_true_truthy _ _ Hv) as Ht.
  exists (field_js (lookup_cache (store (this w)) key) "access_token").
  eexists. split; [by apply truthy_get_js|].
  rewrite getUser_run, Hkey. simpl. rewrite Ht, Hv, _getUser_post. simpl.
  split.
  { f_equal; by destruct (transport _ _) as [t [cause|[text|profile]]]. }
  done.
Qed.

(** C4.  With a token for [openid] in the cache that has expired at the
    time of the call, [getUser] first posts one refresh request carrying the
    cached [refresh_token].  If the refresh resolves, the user-info request
    follows with the [access_token] of the new token, and nothing else is
    posted; if the refresh fails, [getUser] fails in the same way and posts
    nothing more: when the transport reports a failure for the refresh
    request, that failure is what [getUser] is rejected with. *)
Theorem getUser_expired_refreshes_once openid d w :
  getToken openid w = (Normal d, w) →
  truthy_js d = true →
  (isValid (new_AccessToken d) w).1 = Normal false →
  ∃ refreshToken,
    get_js d "refresh_token" = Normal refreshToken ∧
    let refresh := {| url := "https://api.weixin.qq.com/sns/oauth2/refresh_token";
                      form := [("appid", VStr (appid (this w)));
                               ("grant_type", VStr "refresh_token");
                               ("refresh_token", refreshToken)] |} in
    let r := refreshAccessToken transport refreshToken (logged d w) in
    sent r.2 = (sent w ++ [refresh])%list ∧
    (∀ t cause, transport (sent w) refresh = (t, NetFailure cause) →
       (getUser transport openid w).1 = Rejected (TransportError cause) ∧
       sent (getUser transport openid w).2 = (sent w ++ [refresh])%list) ∧
    match r.1 with
    | Resolved newToken =>
        ∃ accessToken w',
          get_js (data newToken) "access_token" = Normal accessToken ∧
          let fetch := {| url := "https://api.weixin.qq.com/sns/userinfo";
                          form := [("access_token", accessToken);
                                   ("openid", openid);
                                   ("lang", VStr "zh_CN")] |} in
          getUser transport openid w =
            (match (transport (sent r.2) fetch).2 with
             | NetFailure cause => Rejected (TransportError cause)
             | NetResponse (Malformed text) => Uncaught (SyntaxError text)
             | NetResponse (WellFormed profile) => Resolved profile
             end, w') ∧
          sent w' = (sent w ++ [refresh; fetch])%list ∧
          store (this w') = store (this r.2)
    | Rejected e => getUser transport openid w = (Rejected e, r.2)
    | Uncaught e => getUser transport openid w = (Uncaught e, r.2)
    end.
Proof.
  intros (_ & key & Hkey & ->)%getToken_normal Ht Hv.
  rewrite isValid_validity in Hv. simpl in Hv.
  set (d := lookup_cache (store (this w)) key) in *.
  exists (field_js d "refresh_token"). split; [by apply truthy_get_js|].
  intros refresh r.
  assert (sent r.2 = (sent w ++ [refresh])%list) as Hsent.
  { apply (token_call_sent transport (Refresh _) (logged d w)). }
  assert (getUser transport openid w =
          match r with
          | (Resolved newToken, w2) =>
              _getUser transport openid
                (field_js (data newToken) "access_token") VUndefined w2
          | (Rejected e, w2) => (Rejected e, w2)
          | (Uncaught e, w2) => (Uncaught e, w2)
          end) as Hrun.
  { rewrite getUser_run, Hkey. simpl. fold d. by rewrite Ht, Hv. }
  split; [done|]. split.
  - intros t cause E. rewrite Hrun. subst r.
    pose proof (token_call_failure transport (Refresh (field_js d "refresh_token"))
                  (logged d w) t cause E) as Hr.
    unfold token_call in Hr. by rewrite Hr.
  - rewrite Hrun. destruct r as [[newToken|e|e] w2] eqn:Er; [|done|done].
    subst r.
    apply (token_call_resolved transport (Refresh _)) in Er
      as (t & payload & d' & key' & _ & Hput & _ & -> & _).
    exists (field d' "access_token"). eexists.
    split; [by eapply put_get_field|].
    simpl in *. rewrite _getUser_post. simpl.
    unfold field_js. simpl. rewrite (put_get_field _ _ _ _ "access_token" Hput).
    split.
    { f_equal; by destruct (transport _ _) as [t' [cause|[text|profile]]]. }
    split; [|done]. simpl. rewrite Hsent. by rewrite <- app_assoc.
Qed.

(** After [getUser] on the expired path whose refresh is answered by
    [payload]: the world it leaves. *)
Lemma getUser_expired_world openid key w t payload d' key' :
  ToPropertyKey openid = Normal key →
  let d := lookup_cache (store (this w)) key in
  truthy_js d = true →
  validity d (clock w) = Normal false →
  transport (sent w) (refresh_token_request w (field_js d "refresh_token"))
    = (t, NetResponse (WellFormed payload)) →
  put payload "create_at" (num t) = Normal d' →
  ToPropertyKey (field payload "openid") = Normal key' →
  store (this (getUser transport openid w).2)
  = assign_cache (store (this w)) key' d'.
Proof.
  intros Hkey d Ht Hv E Hput Hkey'.
  rewrite getUser_run, Hkey. simpl. fold d. rewrite Ht, Hv.
  pose proof (token_call_stamped transport (Refresh _) (logged d w) t payload d'
                key' E Hput Hkey') as Hr.
  unfold token_call in Hr. by rewrite Hr, _getUser_post.
Qed.

(** C10.  A token call that reads a body that parses, whose [openid]
    converts to a property name other than [__proto__], changes what the
    cache answers at no other key.  On the expired path of [getUser], when
    the refresh response names another [openid] than the one asked for
    (and not [__proto__]), the refreshed record is under the response's
    [openid] and the cache answers for the [openid] asked for what it
    answered before. *)
Theorem cache_changes_only_at_response_openid :
  (∀ c w t payload key k,
     transport (sent w) (token_request w c) = (t, NetResponse (WellFormed payload)) →
     ToPropertyKey (field payload "openid") = Normal key →
     key ≠ "__proto__" →
     k ≠ key →
     lookup_cache (store (this (token_call transport c w).2)) k
     = lookup_cache (store (this w)) k) ∧
  (∀ openid asked w t payload d' key,
     ToPropertyKey openid = Normal asked →
     let d := lookup_cache (store (this w)) asked in
     truthy_js d = true →
     (isValid (new_AccessToken d) w).1 = Normal false →
     transport (sent w) (refresh_token_request w (field_js d "refresh_token"))
       = (t, NetResponse (WellFormed payload)) →
     put payload "create_at" (num t) = Normal d' →
     ToPropertyKey (field payload "openid") = Normal key →
     key ≠ "__proto__" →
     key ≠ asked →
     let w' := (getUser transport openid w).2 in
     lookup_cache (store (this w')) key = Data d' ∧
     lookup_cache (store (this w')) asked = d).
Proof.
  split.
  - intros c w t payload key k E Hkey Hproto Hk.
    destruct (put payload "create_at" (num t)) as [d|e] eqn:Hput.
    + rewrite (token_call_stamped _ _ _ _ _ _ _ E Hput Hkey). simpl.
      by apply lookup_assign_ne.
    + by rewrite (token_call_not_stamped _ _ _ _ _ _ E Hput).
  - intros openid asked w t payload d' key Hasked d Ht Hv E Hput Hkey Hproto Hne w'.
    rewrite isValid_validity in Hv. simpl in Hv. subst w'.
    rewrite (getUser_expired_world _ _ _ _ _ _ _ Hasked Ht Hv E Hput Hkey).
    split; [by apply lookup_assign_eq|]. by apply lookup_assign_ne.
Qed.

(** C6.  [getUserByCode(code)] is [getAccessToken(code)] followed by
    [getUser] on the [openid] of the record returned: the same result, the
    same failure when either step fails, and the same world after, cache
    included. *)
Theorem getUserByCode_is_exchange_then_profile code w :
  getUserByCode transport code w = exchange_then_profile transport code w.
Proof. unfold exchange_then_profile. apply getUserByCode_run. Qed.

(** C1.  On a session with an empty cache, [getUser("unknown-id")] posts no
    request; it is rejected, though not with NoOAuthTokenError: the branch
    that builds that error reads the unbound [options] and the call ends
    with the ReferenceError. *)
Theorem getUser_unknown_id_ReferenceError :
  let r := getUser transport (VStr "unknown-id") (fresh_session 0) in
  r.1 = Rejected (ReferenceError "options") ∧
  (∀ message, r.1 ≠ Rejected (NamedError "NoOAuthTokenError" message)) ∧
  sent r.2 = [] ∧
  store (this r.2) = empty_object.
Proof. rewrite getUser_run. simpl. repeat split. done. Qed.

(** C9.  A body that is not JSON makes [JSON.parse] throw inside the
    callback of the request: [getAccessToken], [refreshAccessToken] and
    [_getUser] are then neither resolved nor rejected, and the SyntaxError
    is left uncaught; the cache is as it was. *)
Theorem malformed_body_is_uncaught :
  let garbled := always 1 (NetResponse (Malformed "<html>")) in
  let w := fresh_session 0 in
  getAccessToken garbled (VStr "CODE") w
    = (Uncaught (SyntaxError "<html>"),
       posted (access_token_request w (VStr "CODE")) 1 w) ∧
  refreshAccessToken garbled (VStr "REFRESH") w
    = (Uncaught (SyntaxError "<html>"),
       posted (refresh_token_request w (VStr "REFRESH")) 1 w) ∧
  _getUser garbled (VStr "U1") (VStr "ACCESS") VUndefined w
    = (Uncaught (SyntaxError "<html>"),
       posted (userinfo_request (VStr "U1") (VStr "ACCESS") VUndefined) 1 w).
Proof. repeat split. Qed.

End Calls.

(** * Further properties of index.js *)

Section Sessions.

Context `{Host}.
Variable transport : list Request -> Request -> Z * Reply.

(** ** A token call followed by [getUser] *)

(** What [getUser] finds for [u] after a token call cached an object with a
    numeric [expires_in] under the key of [u]. *)
Lemma getUser_after_token_call c w t payload (e : Z) u key t' :
  transport (sent w) (token_request w c) = (t, NetResponse (WellFormed payload)) →
  is_object payload = true →
  get payload "expires_in" = Normal (num e) →
  Z.abs (e * 1000) < 2 ^ 53 →
  Z.abs (t + e * 1000) < 2 ^ 53 →
  ToPropertyKey (field payload "openid") = Normal key →
  key ≠ "__proto__" →
  ToPropertyKey u = Normal key →
  let w1 := at_time t' (token_call transport c w).2 in
  ∃ d,
    put payload "create_at" (num t) = Normal d ∧
    truthy d = true ∧
    sent w1 = (sent w ++ [token_request w c])%list ∧
    appid (this w1) = appid (this w) ∧
    lookup_cache (store (this w1)) key = Data d ∧
    validity (Data d) t'
    = Normal (truthy (field payload "access_token") && (t' <? t + e * 1000)).
Proof.
  intros E Hobj He H1 H2 Hkey Hne Hu w1.
  destruct (put_object payload "create_at" (num t) Hobj) as (d & Hput & Hd).
  exists d. subst w1. rewrite (token_call_stamped _ _ _ _ _ _ _ E Hput Hkey).
  simpl. repeat split; [done|by destruct d|by apply lookup_assign_eq|].
  apply validity_typed; simpl; [| | |done|done].
  - rewrite <- (stamped_field payload t d "access_token" Hput) by done.
    apply truthy_get_field. by destruct d.
  - exact (get_put_eq payload "create_at" (num t) d Hobj Hput).
  - by rewrite (get_put_ne payload "create_at" "expires_in" (num t) d
                  ltac:(done) Hput).
Qed.

(** After a token call that cached an object with an [access_token] and
    an integer [expires_in] (small enough for the sum with the time to be
    exact), a [getUser] for its [openid] made before [expires_in] seconds
    have passed since the response posts one request, the user-info request
    with that [access_token], and no refresh. *)
Theorem getUser_after_token_call_in_time c w t payload (e : Z) u key t' :
  transport (sent w) (token_request w c) = (t, NetResponse (WellFormed payload)) →
  is_object payload = true →
  truthy (field payload "access_token") = true →
  get payload "expires_in" = Normal (num e) →
  Z.abs (e * 1000) < 2 ^ 53 →
  Z.abs (t + e * 1000) < 2 ^ 53 →
  ToPropertyKey (field payload "openid") = Normal key →
  key ≠ "__proto__" →
  ToPropertyKey u = Normal key →
  t' < t + e * 1000 →
  let w1 := at_time t' (token_call transport c w).2 in
  let fetch := {| url := "https://api.weixin.qq.com/sns/userinfo";
                  form := [("access_token", field payload "access_token");
                           ("openid", u);
                           ("lang", VStr "zh_CN")] |} in
  ∃ w2,
    getUser transport u w1 =
      (match (transport (sent w1) fetch).2 with
       | NetFailure cause => Rejected (TransportError cause)
       | NetResponse (Malformed text) => Uncaught (SyntaxError text)
       | NetResponse (WellFormed profile) => Resolved profile
       end, w2) ∧
    sent w2 = (sent w ++ [token_request w c; fetch])%list ∧
    store (this w2) = store (this w1).
Proof.
  intros E Hobj Ha He H1 H2 Hkey Hne Hu Hlt w1 fetch.
  destruct (getUser_after_token_call c w t payload e u key t' E Hobj He H1 H2
              Hkey Hne Hu) as (d & Hput & Ht & Hsent & _ & Hc & Hv).
  fold w1 in Hsent, Hc.
  rewrite Ha in Hv. apply Z.ltb_lt in Hlt. rewrite Hlt in Hv. simpl in Hv.
  rewrite getUser_run, Hu. cbv zeta. rewrite Hc. cbn [truthy_js].
  rewrite Ht.
  change (clock w1) with t'. rewrite Hv, _getUser_post. cbv zeta.
  unfold field_js. cbn [get_js].
  rewrite (put_get_field _ _ _ _ "access_token" Hput).
  rewrite (stamped_field payload t d "access_token" Hput) by done.
  eexists. split.
  { f_equal; by destruct (transport _ _) as [t0 [cause|[text|profile]]]. }
  split; [|done]. cbn [sent posted logged]. rewrite Hsent.
  by rewrite <- app_assoc.
Qed.

(** The same [getUser] made once [expires_in] seconds have passed since the
    response begins with a refresh request that carries the cached
    [refresh_token]. *)
Theorem getUser_after_token_call_too_late c w t payload (e : Z) u key t' :
  transport (sent w) (token_request w c) = (t, NetResponse (WellFormed payload)) →
  is_object payload = true →
  get payload "expires_in" = Normal (num e) →
  Z.abs (e * 1000) < 2 ^ 53 →
  Z.abs (t + e * 1000) < 2 ^ 53 →
  ToPropertyKey (field payload "openid") = Normal key →
  key ≠ "__proto__" →
  ToPropertyKey u = Normal key →
  t + e * 1000 ≤ t' →
  let w1 := at_time t' (token_call transport c w).2 in
  let refresh := {| url := "https://api.weixin.qq.com/sns/oauth2/refresh_token";
                    form := [("appid", VStr (appid (this w)));
                             ("grant_type", VStr "refresh_token");
                             ("refresh_token", field payload "refresh_token")] |} in
  ∃ rest,
    sent (getUser transport u w1).2
    = (sent w ++ token_request w c :: refresh :: rest)%list.
Proof.
  intros E Hobj He H1 H2 Hkey Hne Hu Hle w1 refresh.
  destruct (getUser_after_token_call c w t payload e u key t' E Hobj He H1 H2
              Hkey Hne Hu) as (d & Hput & Ht & Hsent & Happ & Hc & Hv).
  fold w1 in Hsent, Hc, Happ.
  apply Z.ltb_ge in Hle. rewrite Hle, andb_false_r in Hv.
  rewrite getUser_run, Hu. cbv zeta. rewrite Hc. cbn [truthy_js].
  rewrite Ht.
  change (clock w1) with t'. rewrite Hv.
  unfold field_js at 1. cbn [get_js].
  rewrite (put_get_field _ _ _ _ "refresh_token" Hput).
  rewrite (stamped_field payload t d "refresh_token" Hput) by done.
  pose proof (token_call_sent transport
                (Refresh (field payload "refresh_token")) (logged (Data d) w1))
    as Hs.
  change (sent (refreshAccessToken transport (field payload "refresh_token")
                  (logged (Data d) w1)).2
          = (sent w1 ++ [refresh_token_request w1
                           (field payload "refresh_token")])%list) in Hs.
  unfold refresh_token_request in Hs. rewrite Hsent, Happ in Hs.
  fold refresh in Hs. rewrite <- app_assoc in Hs. cbn [app] in Hs.
  destruct (refreshAccessToken _ _ _) as [[newToken|err|err] w2];
    cbn [snd] in *.
  - rewrite _getUser_post. cbn [snd sent posted]. rewrite Hs, <- !app_assoc.
    by eexists.
  - rewrite Hs. by exists [].
  - rewrite Hs. by exists [].
Qed.

(** ** The ways [getUser] goes *)

Lemma getUser_shape openid w :
  (∃ e, ToPropertyKey openid = Throw e ∧
        getUser transport openid w = (Rejected e, w))
  ∨ ∃ key, ToPropertyKey openid = Normal key ∧
      let cached := lookup_cache (store (this w)) key in
      (∃ e, (e = ReferenceError "options" ∨ ∃ k, e = TypeError k) ∧
            getUser transport openid w = (Rejected e, logged cached w))
      ∨ (∃ a, getUser transport openid w
              = _getUser transport openid a VUndefined (logged cached w))
      ∨ (∃ rt, getUser transport openid w =
           match refreshAccessToken transport rt (logged cached w) with
           | (Resolved newToken, w2) =>
               _getUser transport openid
                 (field_js (data newToken) "access_token") VUndefined w2
           | (Rejected e, w2) => (Rejected e, w2)
           | (Uncaught e, w2) => (Uncaught e, w2)
           end).
Proof.
  rewrite getUser_run.
  destruct (ToPropertyKey openid) as [key|e]; [right|left; by exists e].
  exists key. split; [done|]. simpl.
  destruct (truthy_js _); [|left; eexists; split; [by left|done]].
  destruct (validity _ _) as [[|]|e] eqn:Hv.
  - right. left. by eexists.
  - right. right. by eexists.
  - left. exists e. split; [right|done]. by apply validity_throws in Hv.
Qed.

Lemma profile_outcome_cases r :
  match profile_outcome r with
  | Resolved _ => True
  | Rejected e => ∃ cause, e = TransportError cause
  | Uncaught e => ∃ text, e = SyntaxError text
  end.
Proof. destruct r as [cause|[text|profile]]; simpl; eauto. Qed.

(** [getUser] is never rejected with an error it has named itself, so the
    NoOAuthTokenError of index.js:215 reaches no caller.  When it is
    rejected, the error is the ReferenceError for [options], the error of
    the transport, or the TypeError of a conversion that the [openid] or
    the cached record does not allow; when it leaves an exception uncaught,
    that is the SyntaxError of [JSON.parse] or a TypeError raised while the
    refreshed payload is stamped and stored. *)
Theorem getUser_failures openid w :
  let r := (getUser transport openid w).1 in
  (∀ name message, r ≠ Rejected (NamedError name message)) ∧
  (∀ e, r = Rejected e →
        e = ReferenceError "options" ∨ (∃ cause, e = TransportError cause)
        ∨ ∃ k, e = TypeError k) ∧
  (∀ e, r = Uncaught e →
        (∃ text, e = SyntaxError text) ∨ ∃ k, e = TypeError k).
Proof.
  intros r.
  assert (match r with
          | Resolved _ => True
          | Rejected e =>
              e = ReferenceError "options" ∨ (∃ cause, e = TransportError cause)
              ∨ ∃ k, e = TypeError k
          | Uncaught e =>
              (∃ text, e = SyntaxError text) ∨ ∃ k, e = TypeError k
          end) as Hr.
  { subst r.
    destruct (getUser_shape openid w)
      as [(e & He & ->)|(key & _ & [(e & He & ->)|[[a ->]|[rt ->]]])].
    - simpl. right. right. by apply ToPropertyKey_throws in He.
    - simpl. destruct He as [->|He]; [by left|by right; right].
    - rewrite _getUser_post. simpl.
      pose proof (profile_outcome_cases
        (transport (sent w) (userinfo_request openid a VUndefined)).2) as Hp.
      destruct (profile_outcome _); [done|right; by left|by left].
    - pose proof (token_call_outcome transport (Refresh rt)
                    (logged (lookup_cache (store (this w)) key) w)) as Hc.
      unfold token_call in Hc.
      destruct (refreshAccessToken _ _ _) as [[newToken|e|e] w2]; simpl in *.
      + rewrite _getUser_post. simpl.
        pose proof (profile_outcome_cases
          (transport (sent w2) (userinfo_request openid
             (field_js (data newToken) "access_token") VUndefined)).2) as Hp.
        destruct (profile_outcome _); [done|right; by left|by left].
      + right. by left.
      + done. }
  destruct r as [v|e|e]; repeat split; try done.
  - intros name message [= ->].
    destruct Hr as [?|[[cause ?]|[k ?]]]; done.
  - by intros e' [= <-].
  - by intros e' [= <-].
Qed.

(** When the provider answers the exchange of the code with an object
    that has no usable [access_token] (its answer to a bad code is such an
    object) and whose [openid] converts to a property name other than
    [__proto__], [getUserByCode] does not stop: the object is cached, found
    again under its own [openid], judged invalid, and a refresh request
    carrying its [refresh_token] is posted next. *)
Theorem getUserByCode_without_access_token code w t payload key :
  transport (sent w) (access_token_request w code)
    = (t, NetResponse (WellFormed payload)) →
  is_object payload = true →
  truthy (field payload "access_token") = false →
  ToPropertyKey (field payload "openid") = Normal key →
  key ≠ "__proto__" →
  ∃ rest,
    sent (getUserByCode transport code w).2
    = (sent w
       ++ {| url := "https://api.weixin.qq.com/sns/oauth2/access_token";
             form := [("appid", VStr (appid (this w)));
                      ("secret", VStr (appsecret (this w)));
                      ("code", code);
                      ("grant_type", VStr "authorization_code")] |}
       :: {| url := "https://api.weixin.qq.com/sns/oauth2/refresh_token";
             form := [("appid", VStr (appid (this w)));
                      ("grant_type", VStr "refresh_token");
                      ("refresh_token", field payload "refresh_token")] |}
       :: rest)%list.
Proof.
  intros E Hobj Ha Hkey Hne.
  destruct (put_object payload "create_at" (num t) Hobj) as (d & Hput & Hd).
  assert (truthy d = true) as Ht by (by destruct d).
  pose proof (token_call_stamped transport (Exchange code) w t payload d key
                E Hput Hkey) as Hcall.
  unfold token_call in Hcall. simpl in Hcall.
  rewrite getUserByCode_run, Hcall. cbv iota beta.
  unfold field_js. simpl. rewrite (truthy_get_field d "openid" Ht).
  rewrite (stamped_field payload t d "openid" Hput) by done.
  set (w1 := set_store _ _).
  rewrite getUser_run, Hkey. simpl. subst w1. simpl.
  rewrite lookup_assign_eq by done. simpl. rewrite Ht.
  assert (∀ now, validity (Data d) now = Normal false) as ->.
  { intros now. unfold validity. simpl.
    rewrite (truthy_get_field d "access_token" Ht). cbn [and_then].
    by rewrite (stamped_field payload t d "access_token" Hput), Ha. }
  unfold field_js. simpl. rewrite (truthy_get_field d "refresh_token" Ht).
  rewrite (stamped_field payload t d "refresh_token" Hput) by done.
  match goal with
  | |- context [refreshAccessToken transport ?rt ?w0] =>
      pose proof (token_call_sent transport (Refresh rt) w0) as Hs;
      unfold token_call in Hs at 1; simpl in Hs;
      destruct (refreshAccessToken transport rt w0) as [[newToken|err|err] w2]
  end; simpl in *.
  - rewrite _getUser_post. simpl. rewrite Hs, <- !app_assoc. simpl.
    by eexists.
  - rewrite Hs, <- app_assoc. by exists [].
  - rewrite Hs, <- app_assoc. by exists [].
Qed.

End Sessions.

Section Invariants.

Context `{Host}.
Variable transport : list Request -> Request -> Z * Reply.

(** Every call of [getUser] whose [openid] converts to a property name
    prints one value with [console.log]: what [this.store] answers for that
    name, that is the whole token record with its [access_token] and
    [refresh_token], [undefined] when there is none, or what the cache
    inherits under that name.  Nothing else is printed, however the call
    ends; when the [openid] does not convert, nothing is printed. *)
Theorem getUser_prints_cached_record openid w :
  (∀ key, ToPropertyKey openid = Normal key →
     console (getUser transport openid w).2
     = (console w ++ [lookup_cache (store (this w)) key])%list) ∧
  (∀ e, ToPropertyKey openid = Throw e →
     console (getUser transport openid w).2 = console w).
Proof.
  destruct (getUser_shape transport openid w)
    as [(e & He & ->)|(key & Hkey & [(e & _ & ->)|[[a ->]|[rt ->]]])];
    (split; [intros key' Hkey'|intros e' He']); try congruence.
  - done.
  - by assert (key' = key) as -> by congruence.
  - assert (key' = key) as -> by congruence. by rewrite _getUser_post.
  - assert (key' = key) as -> by congruence.
    pose proof (token_call_console transport (Refresh rt)
                  (logged (lookup_cache (store (this w)) key) w)) as Hc.
    unfold token_call in Hc.
    destruct (refreshAccessToken _ _ _) as [[newToken|e|e] w2]; simpl in *;
      [|done|done].
    by rewrite _getUser_post.
Qed.

(** ** What any use of a session keeps *)

Lemma cache_grows_trans c1 c2 c3 :
  cache_grows c1 c2 → cache_grows c2 c3 → cache_grows c1 c3.
Proof.
  intros H12 H23. induction H23 as [|c3 k payload t d _ IH Hput]; [done|].
  by eapply grows_save.
Qed.

Lemma token_call_grows c w :
  cache_grows (store (this w)) (store (this (token_call transport c w).2)).
Proof.
  rewrite token_call_run. simpl.
  destruct (transport (sent w) (token_request w c))
    as [t [cause|[text|payload]]]; simpl; [constructor|constructor|].
  destruct (put payload "create_at" (num t)) as [d|e] eqn:Hput;
    [|constructor].
  destruct (ToPropertyKey (field payload "openid")) as [key|e];
    [|constructor].
  simpl. eapply grows_save; [constructor|done].
Qed.

Lemma getUser_grows openid w :
  cache_grows (store (this w)) (store (this (getUser transport openid w).2)).
Proof.
  destruct (getUser_shape transport openid w)
    as [(e & He & ->)|(key & Hkey & [(e & _ & ->)|[[a ->]|[rt ->]]])].
  - constructor.
  - constructor.
  - rewrite _getUser_post. constructor.
  - pose proof (token_call_grows (Refresh rt)
                  (logged (lookup_cache (store (this w)) key) w)) as Hg.
    unfold token_call in Hg.
    destruct (refreshAccessToken _ _ _) as [[newToken|e|e] w2]; simpl in *;
      [|done|done].
    by rewrite _getUser_post.
Qed.

Lemma after_grows s w :
  cache_grows (store (this w)) (store (this (after transport s w))).
Proof.
  destruct s as [r sc st|code|rt|openid|code|t]; simpl.
  - unfold getAuthorizeURL. destruct (stringify _); constructor.
  - apply (token_call_grows (Exchange code)).
  - apply (token_call_grows (Refresh rt)).
  - apply getUser_grows.
  - rewrite getUserByCode_run.
    pose proof (token_call_grows (Exchange code) w) as Hg. simpl in Hg.
    destruct (getAccessToken transport code w) as [[token|e|e] w1]; simpl in *;
      [|done|done].
    eapply cache_grows_trans; [done|]. apply getUser_grows.
  - constructor.
Qed.

Lemma after_all_grows steps w :
  cache_grows (store (this w)) (store (this (after_all transport steps w))).
Proof.
  revert w. induction steps as [|s steps IH]; intros w; simpl; [constructor|].
  eapply cache_grows_trans; [apply after_grows|apply IH].
Qed.


Lemma cache_grows_keeps c c' k :
  cache_grows c c' → is_Some (own c !! k) → is_Some (own c' !! k).
Proof.
  induction 1 as [|c' k' payload t d _ IH Hput]; [done|]. intros Hk.
  by apply assign_cache_keeps, IH.
Qed.



(** No method ever removes an entry of the cache: a key that has a token
    keeps having one, whatever is called afterwards. *)
Theorem cache_never_evicts steps w k :
  is_Some (own (store (this w)) !! k) →
  is_Some (own (store (this (after_all transport steps w))) !! k).
Proof. apply cache_grows_keeps, after_all_grows. Qed.

(** ** How many requests a call posts *)

Lemma getUser_posts openid w :
  ∃ l, sent (getUser transport openid w).2 = (sent w ++ l)%list ∧
       (length l ≤ 2)%nat.
Proof.
  destruct (getUser_shape transport openid w)
    as [(e & He & ->)|(key & Hkey & [(e & _ & ->)|[[a ->]|[rt ->]]])].
  - exists []. simpl. split; [by rewrite app_nil_r|lia].
  - exists []. simpl. split; [by rewrite app_nil_r|lia].
  - rewrite _getUser_post. simpl. eexists. split; [done|]. simpl. lia.
  - pose proof (token_call_sent transport (Refresh rt)
                  (logged (lookup_cache (store (this w)) key) w)) as Hs.
    unfold token_call in Hs at 1. simpl in Hs.
    destruct (refreshAccessToken _ _ _) as [[newToken|e|e] w2]; simpl in *.
    + rewrite _getUser_post. simpl. rewrite Hs, <- app_assoc.
      eexists. split; [done|]. simpl. lia.
    + rewrite Hs. eexists. split; [done|]. simpl. lia.
    + rewrite Hs. eexists. split; [done|]. simpl. lia.
Qed.

(** Every call only adds to the requests posted: none for
    [getAuthorizeURL] and for the passing of time; exactly one for
    [getAccessToken], the exchange of the code, and exactly one for
    [refreshAccessToken], the refresh of the token given; at most two for
    [getUser]; the exchange of the code and at most two more for
    [getUserByCode]. *)
Theorem step_posts_few_requests s w :
  ∃ l, sent (after transport s w) = (sent w ++ l)%list ∧
    match s with
    | do_getAuthorizeURL _ _ _ | do_wait _ => l = []
    | do_getAccessToken code =>
        l = [{| url := "https://api.weixin.qq.com/sns/oauth2/access_token";
                form := [("appid", VStr (appid (this w)));
                         ("secret", VStr (appsecret (this w)));
                         ("code", code);
                         ("grant_type", VStr "authorization_code")] |}]
    | do_refreshAccessToken refreshToken =>
        l = [{| url := "https://api.weixin.qq.com/sns/oauth2/refresh_token";
                form := [("appid", VStr (appid (this w)));
                         ("grant_type", VStr "refresh_token");
                         ("refresh_token", refreshToken)] |}]
    | do_getUser _ => (length l ≤ 2)%nat
    | do_getUserByCode code =>
        ∃ l',
          l = {| url := "https://api.weixin.qq.com/sns/oauth2/access_token";
                 form := [("appid", VStr (appid (this w)));
                          ("secret", VStr (appsecret (this w)));
                          ("code", code);
                          ("grant_type", VStr "authorization_code")] |} :: l' ∧
          (length l' ≤ 2)%nat
    end.
Proof.
  destruct s as [r sc st|code|rt|openid|code|t]; simpl.
  - exists []. split; [|done]. rewrite app_nil_r.
    unfold getAuthorizeURL. by destruct (stringify _).
  - change (getAccessToken transport code w)
      with (token_call transport (Exchange code) w).
    rewrite token_call_sent. eexists. split; done.
  - change (refreshAccessToken transport rt w)
      with (token_call transport (Refresh rt) w).
    rewrite token_call_sent. eexists. split; done.
  - apply getUser_posts.
  - rewrite getUserByCode_run.
    pose proof (token_call_sent transport (Exchange code) w) as Hs.
    simpl in Hs.
    destruct (getAccessToken transport code w) as [[token|e|e] w1]; simpl in *.
    + destruct (getUser_posts (field_js (data token) "openid") w1)
        as (l & -> & Hl).
      rewrite Hs, <- app_assoc. eexists. split; [done|]. by exists l.
    + rewrite Hs. eexists. split; [done|]. exists []. split; [done|simpl; lia].
    + rewrite Hs. eexists. split; [done|]. exists []. split; [done|simpl; lia].
  - exists []. split; [by rewrite app_nil_r|done].
Qed.

(** ** A transport that only fails *)

Lemma offline_token_call c w :
  offline transport →
  store (this (token_call transport c w).2) = store (this w).
Proof.
  intros Hoff. destruct (Hoff (sent w) (token_request w c)) as [cause Hc].
  destruct (transport (sent w) (token_request w c)) as [t reply] eqn:E.
  simpl in Hc. subst reply. by rewrite (token_call_failure _ _ _ _ _ E).
Qed.

Lemma offline_getUser openid w :
  offline transport →
  store (this (getUser transport openid w).2) = store (this w).
Proof.
  intros Hoff.
  destruct (getUser_shape transport openid w)
    as [(e & He & ->)|(key & Hkey & [(e & _ & ->)|[[a ->]|[rt ->]]])].
  - done.
  - done.
  - by rewrite _getUser_post.
  - pose proof (offline_token_call (Refresh rt)
                  (logged (lookup_cache (store (this w)) key) w) Hoff) as Hs.
    unfold token_call in Hs.
    destruct (refreshAccessToken _ _ _) as [[newToken|e|e] w2]; simpl in *;
      [|done|done].
    by rewrite _getUser_post.
Qed.

(** While the transport reports a failure for every request, no sequence
    of calls changes the cache. *)
Theorem offline_keeps_cache steps w :
  offline transport →
  store (this (after_all transport steps w)) = store (this w).
Proof.
  intros Hoff. revert w.
  induction steps as [|s steps IH]; intros w; simpl; [done|].
  rewrite IH. destruct s as [r sc st|code|rt|openid|code|t]; simpl.
  - unfold getAuthorizeURL. by destruct (stringify _).
  - by apply (offline_token_call (Exchange code)).
  - by apply (offline_token_call (Refresh rt)).
  - by apply offline_getUser.
  - rewrite getUserByCode_run.
    pose proof (offline_token_call (Exchange code) w Hoff) as Hs. simpl in Hs.
    destruct (getAccessToken transport code w) as [[token|e|e] w1]; simpl in *;
      [|done|done].
    rewrite <- Hs. by apply offline_getUser.
  - done.
Qed.

End Invariants.

(** ** The authorize URL *)

Local Arguments String.append !_ _ : simpl nomatch.

Lemma has_app d x y : has d (x +:+ y) = has d x || has d y.
Proof. induction x as [|c x IH]; simpl; [done|]. by rewrite IH, orb_assoc. Qed.

Lemma has_cons_false d c x :
  has d (String c x) = false → Ascii.eqb c d = false ∧ has d x = false.
Proof.
  simpl. intros [H1 H2]%orb_false_iff. split; [|done].
  by rewrite Ascii.eqb_sym.
Qed.

Lemma cut_prefix d a x :
  has d a = false → cut d (a +:+ x) = (a +:+ (cut d x).1, (cut d x).2).
Proof.
  induction a as [|c a IH]; simpl.
  - intros _. by destruct (cut d x).
  - intros [H1 H2]%has_cons_false. by rewrite H1, IH.
Qed.

Lemma cut_at d a b : has d a = false → cut d (a +:+ String d b) = (a, Some b).
Proof.
  intros Hd. rewrite cut_prefix by done. simpl. rewrite Ascii.eqb_refl. simpl.
  f_equal. clear Hd. induction a; simpl; [done|]. by f_equal.
Qed.

Lemma fields_at d a b :
  has d a = false → fields d (a +:+ String d b) = a :: fields d b.
Proof.
  induction a as [|c a IH]; simpl.
  - intros _. by rewrite Ascii.eqb_refl.
  - intros [H1 H2]%has_cons_false. by rewrite H1, IH.
Qed.

Lemma fields_one d a : has d a = false → fields d a = [a].
Proof.
  induction a as [|c a IH]; simpl; [done|].
  intros [H1 H2]%has_cons_false. by rewrite H1, IH.
Qed.

Lemma delimiter_cases d :
  delimiter d = true → d = "&"%char ∨ d = "="%char ∨ d = "#"%char ∨ d = "?"%char.
Proof.
  unfold delimiter. simpl. rewrite !orb_true_iff, !Ascii.eqb_eq.
  intuition discriminate.
Qed.

(** *** Bytes and code units *)

Lemma char_byte c : char (byte c) = c.
Proof. unfold char, byte. by rewrite N2Z.id, ascii_N_embedding. Qed.

Lemma byte_range c : 0 ≤ byte c < 256.
Proof.
  unfold byte. pose proof (N_ascii_bounded c). lia.
Qed.

Lemma unreserved_high c : (byte c <? 128) = false → unreserved c = false.
Proof. destruct c as [[] [] [] [] [] [] [] []]; by vm_compute. Qed.

Lemma percent_byte_high c : (byte c <? 128) = false → percent_byte c = hex (byte c).
Proof. intros Hc. unfold percent_byte. by rewrite unreserved_high. Qed.

Lemma continuation_range b : continuation b = true → 128 ≤ b ≤ 191.
Proof. unfold continuation. intros [?%Z.leb_le ?%Z.leb_le]%andb_true_iff. lia. Qed.

Lemma three_bytes_range b1 b2 b3 :
  three_bytes b1 b2 b3 = true →
  224 ≤ b1 ≤ 239 ∧ 128 ≤ b2 ≤ 191 ∧ 128 ≤ b3 ≤ 191 ∧ (b1 = 224 → 160 ≤ b2).
Proof.
  unfold three_bytes. rewrite !andb_true_iff.
  intros [[[[?%Z.leb_le ?%Z.leb_le] ?%continuation_range] ?%continuation_range] Hi].
  repeat split; lia.
Qed.

Lemma four_bytes_range b1 b2 b3 b4 :
  four_bytes b1 b2 b3 b4 = true →
  240 ≤ b1 ≤ 244 ∧ 128 ≤ b2 ≤ 191 ∧ 128 ≤ b3 ≤ 191 ∧ 128 ≤ b4 ≤ 191 ∧
  (b1 = 240 → 144 ≤ b2) ∧ (b1 = 244 → b2 ≤ 143).
Proof.
  unfold four_bytes. rewrite !andb_true_iff.
  intros [[[[[[?%Z.leb_le ?%Z.leb_le] ?%continuation_range] ?%continuation_range]
             ?%continuation_range] Hi] Hj].
  repeat split; lia.
Qed.

(** *** What [querystring.escape] does with each form *)

Lemma encode_one b r :
  (b <? 128) = true →
  encode_units (b :: r) =
    and_then (encode_units r) (fun t =>
      Normal ((if unreserved (char b) then String (char b) "" else hex b) +:+ t)).
Proof. intros Hb. cbn [encode_units]. by rewrite Hb. Qed.

Lemma encode_two b1 b2 r :
  194 ≤ b1 ≤ 223 → 128 ≤ b2 ≤ 191 →
  encode_units ((b1 - 192) * 64 + (b2 - 128) :: r) =
    and_then (encode_units r) (fun t => Normal (hex b1 +:+ hex b2 +:+ t)).
Proof.
  intros H1 H2. cbn [encode_units].
  set (c := (b1 - 192) * 64 + (b2 - 128)).
  assert ((c <? 128) = false) as -> by (apply Z.ltb_ge; lia).
  assert ((c <? 2048) = true) as -> by (apply Z.ltb_lt; lia).
  assert (192 + c / 64 = b1) as -> by (subst c; Z.div_mod_to_equations; lia).
  assert (128 + c mod 64 = b2) as -> by (subst c; Z.div_mod_to_equations; lia).
  done.
Qed.

Lemma encode_three b1 b2 b3 r :
  224 ≤ b1 ≤ 239 → 128 ≤ b2 ≤ 191 → 128 ≤ b3 ≤ 191 → (b1 = 224 → 160 ≤ b2) →
  ((b1 =? 237) && (160 <=? b2)) = false →
  encode_units ((b1 - 224) * 4096 + (b2 - 128) * 64 + (b3 - 128) :: r) =
    and_then (encode_units r) (fun t =>
      Normal (hex b1 +:+ hex b2 +:+ hex b3 +:+ t)).
Proof.
  intros H1 H2 H3 H4 H5. cbn [encode_units].
  set (c := (b1 - 224) * 4096 + (b2 - 128) * 64 + (b3 - 128)).
  assert (b1 = 237 → b2 < 160) as H6.
  { intros ->. simpl in H5. by apply Z.leb_gt in H5. }
  assert ((c <? 128) = false) as -> by (apply Z.ltb_ge; lia).
  assert ((c <? 2048) = false) as -> by (apply Z.ltb_ge; lia).
  assert (((c <? 55296) || (57344 <=? c)) = true) as ->.
  { apply orb_true_iff. rewrite Z.ltb_lt, Z.leb_le. lia. }
  assert (224 + c / 4096 = b1) as -> by (subst c; Z.div_mod_to_equations; lia).
  assert (128 + (c / 64) mod 64 = b2) as ->
    by (subst c; Z.div_mod_to_equations; lia).
  assert (128 + c mod 64 = b3) as -> by (subst c; Z.div_mod_to_equations; lia).
  done.
Qed.

Lemma encode_four b1 b2 b3 b4 r :
  240 ≤ b1 ≤ 244 → 128 ≤ b2 ≤ 191 → 128 ≤ b3 ≤ 191 → 128 ≤ b4 ≤ 191 →
  (b1 = 240 → 144 ≤ b2) → (b1 = 244 → b2 ≤ 143) →
  let cp := (b1 - 240) * 262144 + (b2 - 128) * 4096 + (b3 - 128) * 64
            + (b4 - 128) in
  encode_units (55296 + (cp - 65536) / 1024
                :: 56320 + (cp - 65536) mod 1024 :: r) =
    and_then (encode_units r) (fun t =>
      Normal (hex b1 +:+ hex b2 +:+ hex b3 +:+ hex b4 +:+ t)).
Proof.
  intros H1 H2 H3 H4 H5 H6 cp.
  assert (65536 ≤ cp < 1114112) as Hcp by (subst cp; lia).
  set (hi := 55296 + (cp - 65536) / 1024).
  set (lo := 56320 + (cp - 65536) mod 1024).
  assert (55296 ≤ hi < 56320) as Hhi by (subst hi; Z.div_mod_to_equations; lia).
  assert (65536 + (hi mod 1024 * 1024 + lo mod 1024) = cp) as Hback.
  { subst hi lo. Z.div_mod_to_equations. lia. }
  cbn [encode_units].
  assert ((hi <? 128) = false) as -> by (apply Z.ltb_ge; lia).
  assert ((hi <? 2048) = false) as -> by (apply Z.ltb_ge; lia).
  assert (((hi <? 55296) || (57344 <=? hi)) = false) as ->.
  { apply orb_false_iff. rewrite Z.ltb_ge, Z.leb_gt. lia. }
  cbv zeta. rewrite Hback.
  assert (240 + cp / 262144 = b1) as -> by (subst cp; Z.div_mod_to_equations; lia).
  assert (128 + (cp / 4096) mod 64 = b2) as ->
    by (subst cp; Z.div_mod_to_equations; lia).
  assert (128 + (cp / 64) mod 64 = b3) as ->
    by (subst cp; Z.div_mod_to_equations; lia).
  assert (128 + cp mod 64 = b4) as -> by (subst cp; Z.div_mod_to_equations; lia).
  done.
Qed.

(** On well-formed text [querystring.escape] does not throw, and works byte
    by byte. *)
Lemma escape_well_formed_bounded n s :
  (String.length s ≤ n)%nat → well_formed s = true →
  escape s = Normal (percent s).
Proof.
  unfold escape. revert s. induction n as [|n IH]; intros s Hn Hw.
  { destruct s; [done|simpl in Hn; lia]. }
  destruct s as [|c1 r1]; [done|].
  cbn [well_formed units] in *. cbv zeta in *.
  destruct (byte c1 <? 128) eqn:E1.
  { rewrite encode_one by done. rewrite IH by (simpl in Hn; lia || done).
    cbn [and_then percent]. by rewrite char_byte. }
  destruct r1 as [|c2 r2]; [done|].
  destruct ((194 <=? byte c1) && (byte c1 <=? 223) && continuation (byte c2))
    eqn:E2.
  { apply andb_true_iff in E2 as [[?%Z.leb_le ?%Z.leb_le]%andb_true_iff
                                    Hc2%continuation_range].
    rewrite encode_two by lia. rewrite IH by (simpl in Hn; lia || done).
    cbn [and_then percent].
    by rewrite !percent_byte_high by (apply Z.ltb_ge; lia). }
  destruct r2 as [|c3 r3]; [done|].
  destruct (three_bytes (byte c1) (byte c2) (byte c3)) eqn:E3.
  { apply andb_true_iff in Hw as [Hs%negb_true_iff Hw].
    apply three_bytes_range in E3 as (? & ? & ? & ?).
    rewrite encode_three by (lia || done).
    rewrite IH by (simpl in Hn; lia || done).
    cbn [and_then percent].
    by rewrite !percent_byte_high by (apply Z.ltb_ge; lia). }
  destruct r3 as [|c4 r4]; [done|].
  apply andb_true_iff in Hw as [E4 Hw]. rewrite E4.
  apply four_bytes_range in E4 as (? & ? & ? & ? & ? & ?).
  rewrite encode_four by (lia || done).
  rewrite IH by (simpl in Hn; lia || done).
  cbn [and_then percent].
  by rewrite !percent_byte_high by (apply Z.ltb_ge; lia).
Qed.

Lemma escape_well_formed s :
  well_formed s = true → escape s = Normal (percent s).
Proof. by apply (escape_well_formed_bounded (String.length s)). Qed.

(** *** The escaped form *)

Lemma has_percent_byte d c : delimiter d = true → has d (percent_byte c) = false.
Proof.
  intros [-> | [-> | [-> | ->]]]%delimiter_cases;
    destruct c as [[] [] [] [] [] [] [] []]; reflexivity.
Qed.

Lemma has_percent d s : delimiter d = true → has d (percent s) = false.
Proof.
  intros Hd. induction s as [|c s IH]; simpl; [done|].
  by rewrite has_app, has_percent_byte, IH.
Qed.

Lemma unescape_percent_byte c r :
  unescape (percent_byte c +:+ r) = String c (unescape r).
Proof. destruct c as [[] [] [] [] [] [] [] []]; reflexivity. Qed.

(** Percent-decoding undoes [querystring.escape]. *)
Lemma unescape_percent s : unescape (percent s) = s.
Proof.
  induction s as [|c s IH]; simpl; [done|].
  by rewrite unescape_percent_byte, IH.
Qed.

(** No digit of [hexTable] is a delimiter. *)
Lemma has_hex d b : delimiter d = true → has d (hex b) = false.
Proof.
  intros Hd. unfold hex, hex_digit.
  assert (∀ n, Ascii.eqb d (default "0"%char (String.get n "0123456789ABCDEF"))
               = false) as Hdigit.
  { intros n. do 17 (destruct n as [|n];
      [by destruct (delimiter_cases d Hd) as [-> | [-> | [-> | ->]]]|]).
    by destruct (delimiter_cases d Hd) as [-> | [-> | [-> | ->]]]. }
  cbn [has]. rewrite !Hdigit.
  by destruct (delimiter_cases d Hd) as [-> | [-> | [-> | ->]]].
Qed.

Lemma unreserved_not_delimiter d c :
  delimiter d = true → unreserved c = true → Ascii.eqb d c = false.
Proof.
  intros [-> | [-> | [-> | ->]]]%delimiter_cases;
    destruct c as [[] [] [] [] [] [] [] []]; by vm_compute.
Qed.

Lemma hex_app b s t : hex b +:+ s +:+ t = (hex b +:+ s) +:+ t.
Proof. done. Qed.

(** Whatever [querystring.escape] returns holds no delimiter. *)
Lemma has_encode_units_bounded d n us out :
  delimiter d = true → (length us ≤ n)%nat →
  encode_units us = Normal out → has d out = false.
Proof.
  intros Hd. revert us out. induction n as [|n IH]; intros us out Hn.
  { destruct us; [by intros [= <-]|simpl in Hn; lia]. }
  destruct us as [|c r]; [by intros [= <-]|].
  cbn [encode_units].
  assert (∀ (piece : string) r' out',
            has d piece = false → (length r' ≤ n)%nat →
            and_then (encode_units r') (fun t => Normal (piece +:+ t))
            = Normal out' → has d out' = false) as Hstep.
  { intros piece r' out' Hp Hr'.
    destruct (encode_units r') as [t|] eqn:Et; cbn [and_then]; [|done].
    intros [= <-]. by rewrite has_app, Hp, (IH r' t). }
  simpl in Hn.
  destruct (c <? 128).
  { apply Hstep; [|lia]. destruct (unreserved (char c)) eqn:Eu.
    - simpl. by rewrite unreserved_not_delimiter.
    - by apply has_hex. }
  destruct (c <? 2048).
  { intros Ho. eapply (Hstep (hex _ +:+ hex _)); [| |].
    - by rewrite !has_app, !has_hex.
    - instantiate (1 := r). lia.
    - rewrite <- Ho. by destruct (encode_units r). }
  destruct ((c <? 55296) || (57344 <=? c)).
  { intros Ho. eapply (Hstep (hex _ +:+ hex _ +:+ hex _)); [| |].
    - by rewrite !has_app, !has_hex.
    - instantiate (1 := r). lia.
    - rewrite <- Ho. by destruct (encode_units r). }
  destruct r as [|c2 r']; [done|]. cbv zeta. intros Ho.
  eapply (Hstep (hex _ +:+ hex _ +:+ hex _ +:+ hex _)); [| |].
  - by rewrite !has_app, !has_hex.
  - instantiate (1 := r'). simpl in Hn. lia.
  - rewrite <- Ho. by destruct (encode_units r').
Qed.

Lemma has_escape d s out :
  delimiter d = true → escape s = Normal out → has d out = false.
Proof. intros Hd. by apply (has_encode_units_bounded d (length (units s))). Qed.

Lemma escape_throws s e : escape s = Throw e → e = URIError.
Proof.
  unfold escape. generalize (units s). intros us.
  remember (length us) as n eqn:Hn. assert (length us ≤ n)%nat as Hle by lia.
  clear Hn. revert us Hle e.
  induction n as [|n IH]; intros us Hn e.
  { destruct us; [done|simpl in Hn; lia]. }
  destruct us as [|c r]; [done|]. cbn [encode_units]. simpl in Hn.
  assert (∀ (f : string → string) r',
            (length r' ≤ n)%nat →
            and_then (encode_units r') (fun t => Normal (f t)) = Throw e →
            e = URIError) as Hstep.
  { intros f r' Hr'. destruct (encode_units r') eqn:Et; cbn [and_then]; [done|].
    intros [= <-]. by apply (IH r'). }
  destruct (c <? 128); [apply Hstep; lia|].
  destruct (c <? 2048); [apply Hstep; lia|].
  destruct ((c <? 55296) || (57344 <=? c)); [apply Hstep; lia|].
  destruct r as [|c2 r']; [by intros [= <-]|].
  cbv zeta. apply Hstep. simpl in Hn. lia.
Qed.

(** *** Fields and queries *)

Lemma has_encode_field d kv f :
  delimiter d = true → d ≠ "="%char →
  encode_field kv = Normal f → has d f = false.
Proof.
  intros Hd Hne. unfold encode_field.
  destruct (escape kv.1) as [k|] eqn:Ek; cbn [and_then]; [|done].
  destruct (escape kv.2) as [v|] eqn:Ev; cbn [and_then]; [|done].
  intros [= <-].
  rewrite has_app, (has_escape d _ k Hd Ek). cbn [has orb].
  rewrite (has_escape d _ v Hd Ev).
  destruct (Ascii.eqb d "=") eqn:E; [|done].
  by apply Ascii.eqb_eq in E.
Qed.

Lemma encode_field_throws kv e : encode_field kv = Throw e → e = URIError.
Proof.
  unfold encode_field.
  destruct (escape kv.1) as [k|] eqn:Ek; cbn [and_then];
    [|intros [= <-]; by eapply escape_throws].
  destruct (escape kv.2) as [v|] eqn:Ev; cbn [and_then]; [done|].
  intros [= <-]. by eapply escape_throws.
Qed.

Lemma encode_field_well_formed kv :
  well_formed kv.1 = true → well_formed kv.2 = true →
  ∃ f, encode_field kv = Normal f ∧ decode_field f = kv ∧
       has "=" f = true.
Proof.
  intros H1 H2. unfold encode_field.
  rewrite (escape_well_formed _ H1), (escape_well_formed _ H2).
  cbn [and_then]. eexists. split; [done|]. split.
  - unfold decode_field.
    change ("=" +:+ percent kv.2) with (String "=" (percent kv.2)).
    rewrite cut_at by (by apply has_percent). simpl.
    rewrite !unescape_percent. by destruct kv.
  - rewrite !has_app. simpl. apply orb_true_r.
Qed.

Lemma has_stringify d obj q :
  delimiter d = true → d ≠ "="%char → d ≠ "&"%char →
  stringify obj = Normal q → has d q = false.
Proof.
  intros Hd H1 H2. revert q.
  induction obj as [|kv [|kv' r] IH]; intros q.
  - by intros [= <-].
  - by apply has_encode_field.
  - change (stringify (kv :: kv' :: r))
      with (and_then (encode_field kv) (fun f =>
            and_then (stringify (kv' :: r)) (fun t => Normal (f +:+ "&" +:+ t)))).
    destruct (encode_field kv) as [f|] eqn:Ef; cbn [and_then]; [|done].
    destruct (stringify (kv' :: r)) as [t|] eqn:Et; cbn [and_then]; [|done].
    intros [= <-]. rewrite has_app, (has_encode_field d kv f Hd H1 Ef). simpl.
    destruct (Ascii.eqb d "&") eqn:E; [by apply Ascii.eqb_eq in E|].
    simpl. by apply IH.
Qed.

Lemma stringify_throws obj e : stringify obj = Throw e → e = URIError.
Proof.
  induction obj as [|kv [|kv' r] IH]; [done|apply encode_field_throws|].
  change (stringify (kv :: kv' :: r))
    with (and_then (encode_field kv) (fun f =>
          and_then (stringify (kv' :: r)) (fun t => Normal (f +:+ "&" +:+ t)))).
  destruct (encode_field kv) as [f|] eqn:Ef; cbn [and_then];
    [|intros [= <-]; by eapply encode_field_throws].
  destruct (stringify (kv' :: r)) as [t|] eqn:Et; cbn [and_then]; [done|].
  intros [= <-]. by apply IH.
Qed.

Lemma stringify_well_formed obj :
  Forall (fun kv => well_formed kv.1 = true ∧ well_formed kv.2 = true) obj →
  obj ≠ [] →
  ∃ q, stringify obj = Normal q ∧ q ≠ "" ∧
       map decode_field (fields "&" q) = obj.
Proof.
  induction obj as [|kv [|kv' r] IH]; [done| |]; intros Hall _.
  - apply Forall_inv in Hall as [H1 H2].
    destruct (encode_field_well_formed kv H1 H2) as (f & Ef & Hd & Heq).
    exists f. split; [done|]. split; [by destruct f|].
    rewrite fields_one by (by eapply (has_encode_field "&" kv)). simpl.
    by rewrite Hd.
  - pose proof (Forall_inv Hall) as [H1 H2]. apply Forall_inv_tail in Hall.
    destruct (encode_field_well_formed kv H1 H2) as (f & Ef & Hd & Heq).
    destruct (IH Hall ltac:(done)) as (t & Et & _ & Ht).
    change (stringify (kv :: kv' :: r))
      with (and_then (encode_field kv) (fun f =>
            and_then (stringify (kv' :: r)) (fun t => Normal (f +:+ "&" +:+ t)))).
    rewrite Ef, Et. cbn [and_then]. eexists. split; [done|]. split.
    + intros Hq. apply (f_equal (has "=")) in Hq.
      rewrite has_app, Heq in Hq. done.
    + change (f +:+ "&" +:+ t) with (f +:+ String "&" t).
      rewrite fields_at by (by eapply (has_encode_field "&" kv)).
      simpl. by rewrite Hd, Ht.
Qed.

(** Reading back a URL built as [base?query#fragment]. *)
Lemma query_parameters_url base q fragment :
  has "#" base = false → has "?" base = false → has "#" q = false →
  q ≠ "" →
  query_parameters (base +:+ "?" +:+ q +:+ String "#" fragment)
  = map decode_field (fields "&" q).
Proof.
  intros Hb1 Hb2 Hq Hne. unfold query_parameters, query_of.
  rewrite cut_prefix by done.
  change ("?" +:+ q +:+ String "#" fragment)
    with (String "?" (q +:+ String "#" fragment)).
  cbn [cut Ascii.eqb Bool.eqb fst snd].
  rewrite (cut_at "#" q) by done. simpl.
  rewrite (cut_at "?" base) by done. simpl.
  by destruct q.
Qed.

(** The object [getAuthorizeURL] hands to [querystring.stringify]. *)
Lemma getAuthorizeURL_run redirect_uri scope state w :
  getAuthorizeURL redirect_uri scope state w =
    match stringify [("appid", appid (this w));
                     ("redirect_uri", redirect_uri);
                     ("scope", if String.eqb scope "" then "snsapi_base"
                               else scope);
                     ("state", state);
                     ("response_type", "code")] with
    | Normal q =>
        (Resolved ("https://open.weixin.qq.com/connect/oauth2/authorize"
                   +:+ "?" +:+ q +:+ "#wechat_redirect"), w)
    | Throw e => (Rejected e, w)
    end.
Proof.
  unfold getAuthorizeURL.
  replace (if String.eqb state "" then "" else state) with state; [done|].
  destruct (String.eqb state "") eqn:E; [|done]. by apply String.eqb_eq in E.
Qed.

Lemma getAuthorizeURL_well_formed redirect_uri scope state w :
  well_formed (appid (this w)) = true →
  well_formed redirect_uri = true →
  well_formed scope = true →
  well_formed state = true →
  ∃ q,
    getAuthorizeURL redirect_uri scope state w
    = (Resolved ("https://open.weixin.qq.com/connect/oauth2/authorize"
                 +:+ "?" +:+ q +:+ "#wechat_redirect"), w) ∧
    query_parameters ("https://open.weixin.qq.com/connect/oauth2/authorize"
                      +:+ "?" +:+ q +:+ "#wechat_redirect") =
      [("appid", appid (this w));
       ("redirect_uri", redirect_uri);
       ("scope", if String.eqb scope "" then "snsapi_base" else scope);
       ("state", state);
       ("response_type", "code")].
Proof.
  intros Ha Hr Hsc Hst. rewrite getAuthorizeURL_run.
  match goal with |- context [stringify ?i] => set (info := i) end.
  destruct (stringify_well_formed info) as (q & Eq & Hne & Hq).
  { subst info. repeat constructor; simpl; try done.
    by destruct (String.eqb scope ""). }
  { done. }
  rewrite Eq. exists q. split; [done|].
  change "#wechat_redirect" with (String "#" "wechat_redirect").
  rewrite query_parameters_url; try done.
  by apply (has_stringify "#" info).
Qed.

(** C7.  For every redirect URI, scope and state that are well-formed text
    (no surrogate on its own), on a session whose [appid] is,
    [getAuthorizeURL] resolves, and the query of the URL it returns reads
    back as [appid], the redirect URI given, the scope given or
    [snsapi_base] when the scope is empty, the state given, and
    [response_type=code]. *)
Theorem getAuthorizeURL_query_reads_back (redirect_uri scope state : string) w :
  well_formed (appid (this w)) = true →
  well_formed redirect_uri = true →
  well_formed scope = true →
  well_formed state = true →
  ∃ u,
    getAuthorizeURL redirect_uri scope state w = (Resolved u, w) ∧
    query_parameters u =
      [("appid", appid (this w));
       ("redirect_uri", redirect_uri);
       ("scope", if String.eqb scope "" then "snsapi_base" else scope);
       ("state", state);
       ("response_type", "code")].
Proof.
  intros Ha Hr Hsc Hst.
  destruct (getAuthorizeURL_well_formed redirect_uri scope state w Ha Hr Hsc Hst)
    as (q & Hu & Hq).
  eexists. by split.
Qed.

(** Whatever the redirect URI, the scope and the state hold, a URL that
    [getAuthorizeURL] returns has the fragment [wechat_redirect] and, before
    its query, the address of the authorize endpoint: an argument cannot
    smuggle in a fragment or another address.  When no URL is returned, the
    promise is rejected with the URIError of [querystring.escape]; the
    session is as it was either way. *)
Theorem getAuthorizeURL_fragment (redirect_uri scope state : string) w :
  match getAuthorizeURL redirect_uri scope state w with
  | (Resolved u, w') =>
      w' = w ∧
      ∃ q,
        cut "#" u
        = ("https://open.weixin.qq.com/connect/oauth2/authorize?" +:+ q,
           Some "wechat_redirect") ∧
        has "#" q = false ∧
        (cut "?" u).1 = "https://open.weixin.qq.com/connect/oauth2/authorize"
  | (Rejected e, w') => w' = w ∧ e = URIError
  | (Uncaught _, _) => False
  end.
Proof.
  rewrite getAuthorizeURL_run.
  match goal with |- context [stringify ?i] => set (info := i) end.
  destruct (stringify info) as [q|e] eqn:Eq.
  - split; [done|]. exists q.
    assert (has "#" q = false) as Hq by (by apply (has_stringify "#" info)).
    split; [|split; [done|]].
    + change ("https://open.weixin.qq.com/connect/oauth2/authorize" +:+ "?" +:+ q
                +:+ "#wechat_redirect")
        with (("https://open.weixin.qq.com/connect/oauth2/authorize?" +:+ q)
                +:+ String "#" "wechat_redirect").
      apply cut_at. rewrite has_app. by rewrite Hq.
    + change ("https://open.weixin.qq.com/connect/oauth2/authorize" +:+ "?" +:+ q
                +:+ "#wechat_redirect")
        with ("https://open.weixin.qq.com/connect/oauth2/authorize"
                +:+ String "?" (q +:+ "#wechat_redirect")).
      by rewrite cut_at.
  - split; [done|]. by apply stringify_throws in Eq.
Qed.

(** On one session with a well-formed [appid], two calls of
    [getAuthorizeURL] on well-formed text that give the same URL were given
    the same redirect URI and the same state, and the same scope once an
    empty scope is read as [snsapi_base]. *)
Theorem getAuthorizeURL_injective w r1 sc1 st1 r2 sc2 st2 :
  well_formed (appid (this w)) = true →
  well_formed r1 = true → well_formed sc1 = true → well_formed st1 = true →
  well_formed r2 = true → well_formed sc2 = true → well_formed st2 = true →
  (getAuthorizeURL r1 sc1 st1 w).1 = (getAuthorizeURL r2 sc2 st2 w).1 →
  r1 = r2 ∧ st1 = st2 ∧
  (if String.eqb sc1 "" then "snsapi_base" else sc1)
  = (if String.eqb sc2 "" then "snsapi_base" else sc2).
Proof.
  intros Ha Hr1 Hsc1 Hst1 Hr2 Hsc2 Hst2.
  destruct (getAuthorizeURL_well_formed r1 sc1 st1 w Ha Hr1 Hsc1 Hst1)
    as (q1 & -> & Hq1).
  destruct (getAuthorizeURL_well_formed r2 sc2 st2 w Ha Hr2 Hsc2 Hst2)
    as (q2 & -> & Hq2).
  cbn [fst]. intros [= Hu]. rewrite Hu in Hq1. rewrite Hq1 in Hq2.
  by injection Hq2 as -> -> ->.
Qed.

(** * Runs on concrete inputs *)

#[local] Existing Instance no_conversion.

(** ** Sample runs *)

Example escape_sample :
  escape "http://a.b/c?d=e&f g" = Normal "http%3A%2F%2Fa.b%2Fc%3Fd%3De%26f%20g".
Proof. reflexivity. Qed.

Example escape_lone_surrogate : escape lone_surrogate = Throw URIError.
Proof. reflexivity. Qed.

(** A high surrogate takes the code unit after it, whatever that is. *)
Example escape_folds_surrogate :
  escape (lone_surrogate +:+ "A") = Normal "%F0%90%81%81".
Proof. reflexivity. Qed.

(** Doubles round: 72057594037929 * 1000 is not 72057594037929000. *)
Example number_mul_rounds :
  number_mul (Fin 72057594037929 0) (Fin 1000 0) = Fin 72057594037928992 0.
Proof. reflexivity. Qed.

(** The call of the Readme. *)
Example getAuthorizeURL_sample :
  (getAuthorizeURL "redirect_url" "snsapi_userinfo" "" (fresh_session 0)).1
  = Resolved ("https://open.weixin.qq.com/connect/oauth2/authorize"
              +:+ "?appid=appid&redirect_uri=redirect_url&scope=snsapi_userinfo"
              +:+ "&state=&response_type=code#wechat_redirect").
Proof. reflexivity. Qed.

(** The flow of the Readme: the code is exchanged, then the profile is
    fetched with the token just cached; two requests are posted. *)
Example readme_flow :
  let token := token_of "ACCESS" "REFRESH" "U1" 7200 0 in
  let transport := provider 20 token sample_profile in
  let r1 := getAccessToken transport (VStr "CODE") (fresh_session 10) in
  let r2 := getUser transport (VStr "U1") r1.2 in
  r1.1 = Resolved (new_AccessToken
                     (Data (token_of "ACCESS" "REFRESH" "U1" 7200 20))) ∧
  r2.1 = Resolved sample_profile ∧
  sent r2.2 = [access_token_request (fresh_session 10) (VStr "CODE");
               userinfo_request (VStr "U1") (VStr "ACCESS") VUndefined].
Proof. vm_compute. done. Qed.

(** The provider's answer to a bad code is an object without [openid]: the
    call resolves and the object is cached under the key [undefined]. *)
Example error_payload_is_cached :
  let payload := VObj [("errcode", num 40029); ("errmsg", VStr "invalid code")] in
  let stamped := VObj [("errcode", num 40029); ("errmsg", VStr "invalid code");
                       ("create_at", num 20)] in
  let r := getAccessToken (always 20 (NetResponse (WellFormed payload)))
             (VStr "CODE") (fresh_session 10) in
  r.1 = Resolved (new_AccessToken (Data stamped)) ∧
  own (store (this r.2)) !! "undefined" = Some stamped.
Proof. vm_compute. done. Qed.

(** A body [null] parses, and [processToken] throws on it inside the
    callback. *)
Example null_payload_is_uncaught :
  (getAccessToken (always 20 (NetResponse (WellFormed VNull)))
     (VStr "CODE") (fresh_session 10)).1
  = Uncaught (TypeError "create_at").
Proof. reflexivity. Qed.

(** An [openid] that is an object with a [toString] of its own cannot be
    made a property name: [store[openid] = token] throws in the callback. *)
Example openid_without_string_is_uncaught :
  let payload := VObj [("access_token", VStr "ACCESS");
                       ("openid", VObj [("toString", num 1)])] in
  let r := getAccessToken (always 20 (NetResponse (WellFormed payload)))
             (VStr "CODE") (fresh_session 10) in
  r.1 = Uncaught (TypeError "toString") ∧
  store (this r.2) = empty_object.
Proof. vm_compute. done. Qed.

(** On an empty cache [getUser("constructor")] finds the function every
    object inherits, prints it, and goes on to refresh a token that is not
    there. *)
Example inherited_name_is_found :
  let transport := always 20 (NetFailure "ECONNREFUSED") in
  let r := getUser transport (VStr "constructor") (fresh_session 10) in
  r.1 = Rejected (TransportError "ECONNREFUSED") ∧
  console r.2 = [Native "Object.prototype.constructor"] ∧
  sent r.2 = [refresh_token_request (fresh_session 10) VUndefined].
Proof. vm_compute. done. Qed.

(** [null * 1000] is 0: a record whose [expires_in] is [null] is valid
    strictly before its [create_at]. *)
Example null_expires_in_is_zero :
  let record := VObj [("access_token", VStr "ACCESS"); ("expires_in", VNull);
                      ("create_at", num 100)] in
  isValid (new_AccessToken (Data record)) (fresh_session 99)
  = (Normal true, fresh_session 99) ∧
  isValid (new_AccessToken (Data record)) (fresh_session 100)
  = (Normal false, fresh_session 100).
Proof. vm_compute. done. Qed.

(** ** Where the specification as worded fails *)

(** C2 as the specification words it, at two records.  A record whose
    [access_token] is the number 1 is valid though its [access_token] is no
    string; and for [create_at = -72057594037928000],
    [expires_in = 72057594037929] the product rounds to 72057594037928992,
    so at time 995 the check answers false though 995 is below
    [create_at + expires_in * 1000] = 1000. *)
Lemma isValid_rule_as_worded_fails :
  (let token := new_AccessToken (Data (VObj [("access_token", num 1);
                                             ("expires_in", num 7200);
                                             ("create_at", num 0)])) in
   let w := fresh_session 10 in
   ¬ ((isValid token w).1 = Normal true ↔
      (∃ s, get_js (data token) "access_token" = Normal (VStr s) ∧ s ≠ "")
      ∧ clock w < 0 + 7200 * 1000)) ∧
  (let token := new_AccessToken
                  (Data (VObj [("access_token", VStr "ACCESS");
                               ("expires_in", num 72057594037929);
                               ("create_at", num (-72057594037928000))])) in
   let w := fresh_session 995 in
   ¬ ((isValid token w).1 = Normal true ↔
      (∃ s, get_js (data token) "access_token" = Normal (VStr s) ∧ s ≠ "")
      ∧ clock w < -72057594037928000 + 72057594037929 * 1000)).
Proof.
  split.
  - intros token w [Hvalid _].
    assert ((isValid token w).1 = Normal true) as Hv by (by vm_compute).
    destruct (Hvalid Hv) as [(s & Hs & _) _]. vm_compute in Hs. done.
  - intros token w [_ Hvalid].
    assert ((isValid token w).1 = Normal false) as Hv by (by vm_compute).
    rewrite Hv in Hvalid.
    assert (Normal false = Normal true) as Habsurd; [|done].
    apply Hvalid. split; [|by vm_compute].
    exists "ACCESS". split; [reflexivity|discriminate].
Qed.

(** C5 as the specification words it, at two bodies.  The body [5] parses and the call
    resolves, with a record that has no [create_at].  The body
    [{"openid":"__proto__","__proto__":5,...}] parses and the call
    resolves, and the cache then answers 5 for the payload's [openid], not
    the record returned. *)
Lemma token_response_as_worded_fails :
  (let r := getAccessToken (always 20 (NetResponse (WellFormed (num 5))))
              (VStr "CODE") (fresh_session 10) in
   r.1 = Resolved (new_AccessToken (Data (num 5))) ∧
   get (num 5) "create_at" = Normal VUndefined) ∧
  (let payload := VObj [("access_token", VStr "ACCESS");
                        ("openid", VStr "__proto__");
                        ("__proto__", num 5)] in
   let stamped := VObj [("access_token", VStr "ACCESS");
                        ("openid", VStr "__proto__");
                        ("__proto__", num 5);
                        ("create_at", num 20)] in
   let r := getAccessToken (always 20 (NetResponse (WellFormed payload)))
              (VStr "CODE") (fresh_session 10) in
   r.1 = Resolved (new_AccessToken (Data stamped)) ∧
   (getToken (VStr "__proto__") r.2).1 = Normal (Data (num 5)) ∧
   own (store (this r.2)) = ∅).
Proof. vm_compute. done. Qed.

(** C7 as the specification words it, at a state that ends in a high
    surrogate: [getAuthorizeURL] is rejected. *)
Lemma getAuthorizeURL_as_worded_fails :
  getAuthorizeURL "http://a.b/c" "snsapi_base" lone_surrogate (fresh_session 0)
  = (Rejected URIError, fresh_session 0).
Proof. reflexivity. Qed.

(** C10 as the specification words it, at a response whose [openid] is
    [__proto__]: the cache gets the payload as its prototype, and answers
    for the key [refresh_token], which is not the payload's [openid], what
    it did not answer before. *)
Lemma cache_frame_as_worded_fails :
  let payload := VObj [("access_token", VStr "ACCESS");
                       ("refresh_token", VStr "RT");
                       ("openid", VStr "__proto__")] in
  let w := fresh_session 10 in
  let r := getAccessToken (always 20 (NetResponse (WellFormed payload)))
             (VStr "CODE") w in
  (∃ token, r.1 = Resolved token) ∧
  ToPropertyKey (field payload "openid") = Normal "__proto__" ∧
  "refresh_token" ≠ "__proto__" ∧
  (getToken (VStr "refresh_token") w).1 = Normal (Data VUndefined) ∧
  (getToken (VStr "refresh_token") r.2).1 = Normal (Data (VStr "RT")).
Proof. vm_compute. repeat split; try done. by eexists. Qed.

(** ** Instances *)

Lemma isValid_rule_witness :
  let d := Data (token_of "ACCESS" "REFRESH" "U1" 1 1000) in
  let w := session 3000 ∅ in
  get_js d "access_token" = Normal (VStr "ACCESS") ∧
  get_js d "create_at" = Normal (num 1000) ∧
  get_js d "expires_in" = Normal (num 1) ∧
  Z.abs (1 * 1000) < 2 ^ 53 ∧
  Z.abs (1000 + 1 * 1000) < 2 ^ 53 ∧
  ∃ b : bool,
    isValid (new_AccessToken d) w = (Normal b, w) ∧
    (b = true ↔ truthy (VStr "ACCESS") = true ∧ clock w < 1000 + 1 * 1000) ∧
    (clock w = 1000 + 1 * 1000 → b = false) ∧
    (1 = 1 → 1000 = clock w - 2000 → b = false).
Proof.
  intros d w.
  assert (get_js d "access_token" = Normal (VStr "ACCESS")) as H1 by reflexivity.
  assert (get_js d "create_at" = Normal (num 1000)) as H2 by reflexivity.
  assert (get_js d "expires_in" = Normal (num 1)) as H3 by reflexivity.
  assert (Z.abs (1 * 1000) < 2 ^ 53) as H4 by reflexivity.
  assert (Z.abs (1000 + 1 * 1000) < 2 ^ 53) as H5 by reflexivity.
  repeat (split; [assumption|]).
  exact (isValid_rule (new_AccessToken d) w (VStr "ACCESS") 1000 1
           H1 H2 H3 H4 H5).
Defined.

Lemma getUser_valid_uses_cached_token_witness :
  let record := token_of "ACCESS" "REFRESH" "U1" 7200 0 in
  let d := Data record in
  let w := session 10 {[ "U1" := record ]} in
  let transport := provider 20 record sample_profile in
  getToken (VStr "U1") w = (Normal d, w) ∧
  (isValid (new_AccessToken d) w).1 = Normal true ∧
  ∃ accessToken w',
    get_js d "access_token" = Normal accessToken ∧
    let fetch := {| url := "https://api.weixin.qq.com/sns/userinfo";
                    form := [("access_token", accessToken);
                             ("openid", VStr "U1");
                             ("lang", VStr "zh_CN")] |} in
    getUser transport (VStr "U1") w =
      (match (transport (sent w) fetch).2 with
       | NetFailure cause => Rejected (TransportError cause)
       | NetResponse (Malformed text) => Uncaught (SyntaxError text)
       | NetResponse (WellFormed profile) => Resolved profile
       end, w') ∧
    sent w' = (sent w ++ [fetch])%list ∧
    store (this w') = store (this w).
Proof.
  intros record d w transport.
  assert (getToken (VStr "U1") w = (Normal d, w)) as H1 by (by vm_compute).
  assert ((isValid (new_AccessToken d) w).1 = Normal true) as H2
    by (by vm_compute).
  repeat (split; [assumption|]).
  exact (getUser_valid_uses_cached_token transport (VStr "U1") d w H1 H2).
Defined.

Lemma getUser_expired_refreshes_once_witness :
  let record := token_of "OLD" "REFRESH" "U1" 1 1000 in
  let d := Data record in
  let w := session 3000 {[ "U1" := record ]} in
  let transport :=
    provider 3100 (token_of "NEW" "REFRESH2" "U1" 7200 0) sample_profile in
  let openid := VStr "U1" in
  getToken openid w = (Normal d, w) ∧
  truthy_js d = true ∧
  (isValid (new_AccessToken d) w).1 = Normal false ∧
  ∃ refreshToken,
    get_js d "refresh_token" = Normal refreshToken ∧
    let refresh := {| url := "https://api.weixin.qq.com/sns/oauth2/refresh_token";
                      form := [("appid", VStr (appid (this w)));
                               ("grant_type", VStr "refresh_token");
                               ("refresh_token", refreshToken)] |} in
    let r := refreshAccessToken transport refreshToken (logged d w) in
    sent r.2 = (sent w ++ [refresh])%list ∧
    (∀ t cause, transport (sent w) refresh = (t, NetFailure cause) →
       (getUser transport openid w).1 = Rejected (TransportError cause) ∧
       sent (getUser transport openid w).2 = (sent w ++ [refresh])%list) ∧
    match r.1 with
    | Resolved newToken =>
        ∃ accessToken w',
          get_js (data newToken) "access_token" = Normal accessToken ∧
          let fetch := {| url := "https://api.weixin.qq.com/sns/userinfo";
                          form := [("access_token", accessToken);
                                   ("openid", openid);
                                   ("lang", VStr "zh_CN")] |} in
          getUser transport openid w =
            (match (transport (sent r.2) fetch).2 with
             | NetFailure cause => Rejected (TransportError cause)
             | NetResponse (Malformed text) => Uncaught (SyntaxError text)
             | NetResponse (WellFormed profile) => Resolved profile
             end, w') ∧
          sent w' = (sent w ++ [refresh; fetch])%list ∧
          store (this w') = store (this r.2)
    | Rejected e => getUser transport openid w = (Rejected e, r.2)
    | Uncaught e => getUser transport openid w = (Uncaught e, r.2)
    end.
Proof.
  intros record d w transport openid.
  assert (getToken openid w = (Normal d, w)) as H1 by (by vm_compute).
  assert (truthy_js d = true) as H2 by reflexivity.
  assert ((isValid (new_AccessToken d) w).1 = Normal false) as H3
    by (by vm_compute).
  repeat (split; [assumption|]).
  exact (getUser_expired_refreshes_once transport openid d w H1 H2 H3).
Defined.

Lemma token_response_stamped_and_stored_witness :
  let payload := token_of "ACCESS" "REFRESH" "U1" 7200 999 in
  let transport := provider 20 payload sample_profile in
  let c := Exchange (VStr "CODE") in
  let w := session 0 {[ "U1" := token_of "OLD" "OLDREFRESH" "U1" 1 1 ]} in
  transport (sent w) (token_request w c) = (20, NetResponse (WellFormed payload)) ∧
  is_object payload = true ∧
  ToPropertyKey (field payload "openid") = Normal "U1" ∧
  "U1" ≠ "__proto__" ∧
  ∃ d w',
    token_call transport c w = (Resolved (new_AccessToken (Data d)), w') ∧
    clock w' = 20 ∧
    get d "create_at" = Normal (num 20) ∧
    (∀ k, k ≠ "create_at" → get d k = get payload k) ∧
    own (store (this w')) = <["U1" := d]> (own (store (this w))) ∧
    proto (store (this w')) = proto (store (this w)) ∧
    getToken (VStr "U1") w' = (Normal (Data d), w') ∧
    (∀ u, get payload "openid" = Normal (VStr u) → "U1" = u).
Proof.
  intros payload transport c w.
  assert (transport (sent w) (token_request w c)
          = (20, NetResponse (WellFormed payload))) as H1 by reflexivity.
  assert (is_object payload = true) as H2 by reflexivity.
  assert (ToPropertyKey (field payload "openid") = Normal "U1") as H3
    by reflexivity.
  assert ("U1" ≠ "__proto__") as H4 by discriminate.
  repeat (split; [assumption|]).
  exact (token_response_stamped_and_stored transport c w 20 payload "U1"
           H1 H2 H3 H4).
Defined.

Lemma transport_failure_rejects_witness :
  let transport := always 5 (NetFailure "ECONNREFUSED") in
  let c := Refresh (VStr "REFRESH") in
  let w := session 0 {[ "U1" := token_of "OLD" "REFRESH" "U1" 1 1 ]} in
  transport (sent w) (token_request w c) = (5, NetFailure "ECONNREFUSED") ∧
  ∃ w',
    token_call transport c w = (Rejected (TransportError "ECONNREFUSED"), w') ∧
    sent w' = (sent w ++ [token_request w c])%list ∧
    store (this w') = store (this w).
Proof.
  intros transport c w.
  assert (transport (sent w) (token_request w c) = (5, NetFailure "ECONNREFUSED"))
    as H1 by reflexivity.
  split; [assumption|].
  exact (transport_failure_rejects transport c w 5 "ECONNREFUSED" H1).
Defined.

Lemma cache_changes_only_at_response_openid_witness :
  let record := token_of "OLD" "REFRESH" "U1" 1 1000 in
  let payload := token_of "NEW" "REFRESH2" "U2" 7200 0 in
  let d' := token_of "NEW" "REFRESH2" "U2" 7200 3100 in
  let w := session 3000 {[ "U1" := record ]} in
  let transport := provider 3100 payload sample_profile in
  let c := Exchange (VStr "CODE") in
  let openid := VStr "U1" in
  (transport (sent w) (token_request w c)
     = (3100, NetResponse (WellFormed payload)) ∧
   ToPropertyKey (field payload "openid") = Normal "U2" ∧
   "U2" ≠ "__proto__" ∧
   "U1" ≠ "U2" ∧
   lookup_cache (store (this (token_call transport c w).2)) "U1"
   = lookup_cache (store (this w)) "U1") ∧
  (ToPropertyKey openid = Normal "U1" ∧
   let d := lookup_cache (store (this w)) "U1" in
   truthy_js d = true ∧
   (isValid (new_AccessToken d) w).1 = Normal false ∧
   transport (sent w) (refresh_token_request w (field_js d "refresh_token"))
     = (3100, NetResponse (WellFormed payload)) ∧
   put payload "create_at" (num 3100) = Normal d' ∧
   ToPropertyKey (field payload "openid") = Normal "U2" ∧
   "U2" ≠ "__proto__" ∧
   "U2" ≠ "U1" ∧
   let w' := (getUser transport openid w).2 in
   lookup_cache (store (this w')) "U2" = Data d' ∧
   lookup_cache (store (this w')) "U1" = Data record).
Proof.
  intros record payload d' w transport c openid.
  assert (transport (sent w) (token_request w c)
          = (3100, NetResponse (WellFormed payload))) as A1 by reflexivity.
  assert (ToPropertyKey (field payload "openid") = Normal "U2") as A2
    by reflexivity.
  assert ("U2" ≠ "__proto__") as A3 by discriminate.
  assert ("U1" ≠ "U2") as A4 by discriminate.
  assert (ToPropertyKey openid = Normal "U1") as B1 by reflexivity.
  assert (truthy_js (lookup_cache (store (this w)) "U1") = true) as B2
    by (by vm_compute).
  assert ((isValid (new_AccessToken (lookup_cache (store (this w)) "U1")) w).1
          = Normal false) as B3 by (by vm_compute).
  assert (transport (sent w)
            (refresh_token_request w
               (field_js (lookup_cache (store (this w)) "U1") "refresh_token"))
          = (3100, NetResponse (WellFormed payload))) as B4 by reflexivity.
  assert (put payload "create_at" (num 3100) = Normal d') as B5 by reflexivity.
  assert ("U2" ≠ "U1") as B6 by discriminate.
  split.
  - repeat (split; [assumption|]).
    exact (proj1 (cache_changes_only_at_response_openid transport)
             c w 3100 payload "U2" "U1" A1 A2 A3 A4).
  - split; [assumption|]. intros d.
    repeat (split; [assumption|]).
    exact (proj2 (cache_changes_only_at_response_openid transport)
             openid "U1" w 3100 payload d' "U2" B1 B2 B3 B4 B5 A2 A3 B6).
Defined.

Lemma getAuthorizeURL_query_reads_back_witness :
  let w := fresh_session 0 in
  let redirect_uri := "http://a.b/c?d=e&f g#h" in
  let state := String (char 195) (String (char 169) "&=") in
  well_formed (appid (this w)) = true ∧
  well_formed redirect_uri = true ∧
  well_formed "" = true ∧
  well_formed state = true ∧
  ∃ u,
    getAuthorizeURL redirect_uri "" state w = (Resolved u, w) ∧
    query_parameters u =
      [("appid", "appid");
       ("redirect_uri", redirect_uri);
       ("scope", "snsapi_base");
       ("state", state);
       ("response_type", "code")].
Proof.
  intros w redirect_uri state.
  assert (well_formed (appid (this w)) = true) as H1 by reflexivity.
  assert (well_formed redirect_uri = true) as H2 by reflexivity.
  assert (well_formed "" = true) as H3 by reflexivity.
  assert (well_formed state = true) as H4 by reflexivity.
  repeat (split; [assumption|]).
  exact (getAuthorizeURL_query_reads_back redirect_uri "" state w H1 H2 H3 H4).
Defined.

(** ** Instances of the further properties *)

Lemma isValid_earlier_witness :
  let token := new_AccessToken (Data (token_of "ACCESS" "REFRESH" "U1" 7200 0)) in
  let w := fresh_session 10 in
  let w' := fresh_session 7199999 in
  clock w ≤ clock w' ∧
  (isValid token w').1 = Normal true ∧
  (isValid token w).1 = Normal true.
Proof.
  intros token w w'.
  assert (clock w ≤ clock w') as H1 by (simpl; lia).
  assert ((isValid token w').1 = Normal true) as H2 by (by vm_compute).
  repeat (split; [assumption|]).
  exact (isValid_earlier token w w' H1 H2).
Defined.

Lemma isValid_without_expires_in_witness :
  let token := new_AccessToken
    (Data (VObj [("errcode", num 40029); ("errmsg", VStr "invalid code");
                 ("access_token", VStr "ACCESS"); ("create_at", num 20)])) in
  let w := fresh_session 10 in
  get_js (data token) "create_at" = Normal (num 20) ∧
  get_js (data token) "expires_in" = Normal VUndefined ∧
  isValid token w = (Normal false, w).
Proof.
  intros token w.
  assert (get_js (data token) "create_at" = Normal (num 20)) as H1
    by reflexivity.
  assert (get_js (data token) "expires_in" = Normal VUndefined) as H2
    by reflexivity.
  repeat (split; [assumption|]).
  exact (isValid_without_expires_in token w 20 H1 H2).
Defined.

Lemma getUser_after_token_call_in_time_witness :
  let payload := token_of "ACCESS" "REFRESH" "U1" 7200 999 in
  let transport := provider 20 payload sample_profile in
  let c := Exchange (VStr "CODE") in
  let w := fresh_session 0 in
  let u := VStr "U1" in
  transport (sent w) (token_request w c) = (20, NetResponse (WellFormed payload)) ∧
  is_object payload = true ∧
  truthy (field payload "access_token") = true ∧
  get payload "expires_in" = Normal (num 7200) ∧
  Z.abs (7200 * 1000) < 2 ^ 53 ∧
  Z.abs (20 + 7200 * 1000) < 2 ^ 53 ∧
  ToPropertyKey (field payload "openid") = Normal "U1" ∧
  "U1" ≠ "__proto__" ∧
  ToPropertyKey u = Normal "U1" ∧
  5000 < 20 + 7200 * 1000 ∧
  let w1 := at_time 5000 (token_call transport c w).2 in
  let fetch := {| url := "https://api.weixin.qq.com/sns/userinfo";
                  form := [("access_token", VStr "ACCESS");
                           ("openid", u);
                           ("lang", VStr "zh_CN")] |} in
  ∃ w2,
    getUser transport u w1 = (Resolved sample_profile, w2) ∧
    sent w2 = (sent w ++ [token_request w c; fetch])%list ∧
    store (this w2) = store (this w1).
Proof.
  intros payload transport c w u.
  assert (transport (sent w) (token_request w c)
          = (20, NetResponse (WellFormed payload))) as H1 by reflexivity.
  assert (is_object payload = true) as H2 by reflexivity.
  assert (truthy (field payload "access_token") = true) as H3 by reflexivity.
  assert (get payload "expires_in" = Normal (num 7200)) as H4 by reflexivity.
  assert (Z.abs (7200 * 1000) < 2 ^ 53) as H5 by reflexivity.
  assert (Z.abs (20 + 7200 * 1000) < 2 ^ 53) as H6 by reflexivity.
  assert (ToPropertyKey (field payload "openid") = Normal "U1") as H7
    by reflexivity.
  assert ("U1" ≠ "__proto__") as H8 by discriminate.
  assert (ToPropertyKey u = Normal "U1") as H9 by reflexivity.
  assert (5000 < 20 + 7200 * 1000) as H10 by lia.
  repeat (split; [assumption|]).
  exact (getUser_after_token_call_in_time transport c w 20 payload 7200 u "U1"
           5000 H1 H2 H3 H4 H5 H6 H7 H8 H9 H10).
Defined.

Lemma getUser_after_token_call_too_late_witness :
  let payload := token_of "ACCESS" "REFRESH" "U1" 7200 999 in
  let transport := provider 20 payload sample_profile in
  let c := Exchange (VStr "CODE") in
  let w := fresh_session 0 in
  let u := VStr "U1" in
  transport (sent w) (token_request w c) = (20, NetResponse (WellFormed payload)) ∧
  is_object payload = true ∧
  get payload "expires_in" = Normal (num 7200) ∧
  Z.abs (7200 * 1000) < 2 ^ 53 ∧
  Z.abs (20 + 7200 * 1000) < 2 ^ 53 ∧
  ToPropertyKey (field payload "openid") = Normal "U1" ∧
  "U1" ≠ "__proto__" ∧
  ToPropertyKey u = Normal "U1" ∧
  20 + 7200 * 1000 ≤ 7200020 ∧
  let w1 := at_time 7200020 (token_call transport c w).2 in
  let refresh := {| url := "https://api.weixin.qq.com/sns/oauth2/refresh_token";
                    form := [("appid", VStr "appid");
                             ("grant_type", VStr "refresh_token");
                             ("refresh_token", VStr "REFRESH")] |} in
  ∃ rest,
    sent (getUser transport u w1).2
    = (sent w ++ token_request w c :: refresh :: rest)%list.
Proof.
  intros payload transport c w u.
  assert (transport (sent w) (token_request w c)
          = (20, NetResponse (WellFormed payload))) as H1 by reflexivity.
  assert (is_object payload = true) as H2 by reflexivity.
  assert (get payload "expires_in" = Normal (num 7200)) as H4 by reflexivity.
  assert (Z.abs (7200 * 1000) < 2 ^ 53) as H5 by reflexivity.
  assert (Z.abs (20 + 7200 * 1000) < 2 ^ 53) as H6 by reflexivity.
  assert (ToPropertyKey (field payload "openid") = Normal "U1") as H7
    by reflexivity.
  assert ("U1" ≠ "__proto__") as H8 by discriminate.
  assert (ToPropertyKey u = Normal "U1") as H9 by reflexivity.
  assert (20 + 7200 * 1000 ≤ 7200020) as H10 by lia.
  repeat (split; [assumption|]).
  exact (getUser_after_token_call_too_late transport c w 20 payload 7200 u "U1"
           7200020 H1 H2 H4 H5 H6 H7 H8 H9 H10).
Defined.

Lemma getUserByCode_without_access_token_witness :
  let payload := VObj [("errcode", num 40029); ("errmsg", VStr "invalid code")] in
  let transport := always 20 (NetResponse (WellFormed payload)) in
  let code := VStr "BADCODE" in
  let w := fresh_session 0 in
  transport (sent w) (access_token_request w code)
    = (20, NetResponse (WellFormed payload)) ∧
  is_object payload = true ∧
  truthy (field payload "access_token") = false ∧
  ToPropertyKey (field payload "openid") = Normal "undefined" ∧
  "undefined" ≠ "__proto__" ∧
  ∃ rest,
    sent (getUserByCode transport code w).2
    = (sent w
       ++ {| url := "https://api.weixin.qq.com/sns/oauth2/access_token";
             form := [("appid", VStr "appid");
                      ("secret", VStr "secret");
                      ("code", code);
                      ("grant_type", VStr "authorization_code")] |}
       :: {| url := "https://api.weixin.qq.com/sns/oauth2/refresh_token";
             form := [("appid", VStr "appid");
                      ("grant_type", VStr "refresh_token");
                      ("refresh_token", VUndefined)] |}
       :: rest)%list.
Proof.
  intros payload transport code w.
  assert (transport (sent w) (access_token_request w code)
          = (20, NetResponse (WellFormed payload))) as H1 by reflexivity.
  assert (is_object payload = true) as H2 by reflexivity.
  assert (truthy (field payload "access_token") = false) as H3 by reflexivity.
  assert (ToPropertyKey (field payload "openid") = Normal "undefined") as H4
    by reflexivity.
  assert ("undefined" ≠ "__proto__") as H5 by discriminate.
  repeat (split; [assumption|]).
  exact (getUserByCode_without_access_token transport code w 20 payload
           "undefined" H1 H2 H3 H4 H5).
Defined.

Lemma getUser_prints_cached_record_witness :
  let record := token_of "ACCESS" "REFRESH" "U1" 7200 0 in
  let w := session 10 {[ "U1" := record ]} in
  let transport := provider 20 record sample_profile in
  (ToPropertyKey (VStr "U1") = Normal "U1" ∧
   console (getUser transport (VStr "U1") w).2 = [Data record]) ∧
  (ToPropertyKey (VObj [("toString", num 1)]) = Throw (TypeError "toString") ∧
   console (getUser transport (VObj [("toString", num 1)]) w).2 = []).
Proof.
  intros record w transport.
  assert (ToPropertyKey (VStr "U1") = Normal "U1") as H1 by reflexivity.
  assert (ToPropertyKey (VObj [("toString", num 1)])
          = Throw (TypeError "toString")) as H2 by reflexivity.
  split; (split; [assumption|]).
  - exact (proj1 (getUser_prints_cached_record transport (VStr "U1") w) "U1" H1).
  - exact (proj2 (getUser_prints_cached_record transport
                    (VObj [("toString", num 1)]) w) (TypeError "toString") H2).
Defined.


Lemma cache_never_evicts_witness :
  let d := token_of "OLD" "REFRESH" "U1" 1 1000 in
  let transport :=
    provider 3100 (token_of "NEW" "REFRESH2" "U2" 7200 0) sample_profile in
  let steps := [do_getUser (VStr "U1"); do_getAccessToken (VStr "CODE")] in
  let w := session 3000 {[ "U1" := d ]} in
  is_Some (own (store (this w)) !! "U1") ∧
  is_Some (own (store (this (after_all transport steps w))) !! "U1").
Proof.
  intros d transport steps w.
  assert (is_Some (own (store (this w)) !! "U1")) as H1
    by (exists d; by vm_compute).
  split; [assumption|].
  exact (cache_never_evicts transport steps w "U1" H1).
Defined.

Lemma offline_keeps_cache_witness :
  let d := token_of "OLD" "REFRESH" "U1" 1 1000 in
  let transport := always 5 (NetFailure "ECONNREFUSED") in
  let steps := [do_getUser (VStr "U1"); do_getUserByCode (VStr "CODE")] in
  let w := session 3000 {[ "U1" := d ]} in
  offline transport ∧
  store (this (after_all transport steps w)) = store (this w).
Proof.
  intros d transport steps w.
  assert (offline transport) as H1
    by (intros history req; exists "ECONNREFUSED"; reflexivity).
  split; [assumption|].
  exact (offline_keeps_cache transport steps w H1).
Defined.

Lemma getAuthorizeURL_injective_witness :
  let w := fresh_session 0 in
  well_formed (appid (this w)) = true ∧
  well_formed "https://a.example/cb" = true ∧
  well_formed "" = true ∧
  well_formed "s" = true ∧
  well_formed "snsapi_base" = true ∧
  (getAuthorizeURL "https://a.example/cb" "" "s" w).1
  = (getAuthorizeURL "https://a.example/cb" "snsapi_base" "s" w).1 ∧
  "https://a.example/cb" = "https://a.example/cb" ∧ "s" = "s" ∧
  (if String.eqb "" "" then "snsapi_base" else "")
  = (if String.eqb "snsapi_base" "" then "snsapi_base" else "snsapi_base").
Proof.
  intros w.
  assert (well_formed (appid (this w)) = true) as H0 by reflexivity.
  assert (well_formed "https://a.example/cb" = true) as H1 by reflexivity.
  assert (well_formed "" = true) as H2 by reflexivity.
  assert (well_formed "s" = true) as H3 by reflexivity.
  assert (well_formed "snsapi_base" = true) as H4 by reflexivity.
  assert ((getAuthorizeURL "https://a.example/cb" "" "s" w).1
          = (getAuthorizeURL "https://a.example/cb" "snsapi_base" "s" w).1) as H5
    by reflexivity.
  repeat (split; [assumption|]).
  exact (getAuthorizeURL_injective w "https://a.example/cb" "" "s"
           "https://a.example/cb" "snsapi_base" "s" H0 H1 H2 H3 H1 H4 H3 H5).
Defined.
